(** * har-to-hoverfly: HAR entries to Hoverfly simulation pairs

    A shallow embedding of the two programs of the repository:

    - [Positional]: [har-to-hoverfly.go], which takes the input file as a
      positional argument, builds each pair inline in [main] and has the
      flags [--max-response-bytes], [--skip-non-text], [--host] and
      [--summarise];
    - [Named]: the program that takes [--input], builds pairs in
      [convertEntryToPair] and has the flags [--max-body-bytes],
      [--ignore-non-text], [--allowed-content-types], [--host] and
      [--summarise].

    Go strings are byte sequences, so they are modelled by [string] (a list
    of 8-bit characters) and [len] is [String.length].  Go's [int] is
    modelled by [Z]; the only arithmetic in the programs is [max-3] in
    [truncate], whose 64-bit wrap-around is written out.  Go maps are
    [gmap]s.  A [nil] slice is [None] where the difference with an empty
    slice is observable. *)

From Stdlib Require Import ZArith Ascii Bool.
From stdpp Require Import base option list gmap strings.

Local Open Scope Z_scope.

(** ** The pieces of Go's [strings] package that the programs call *)

Module GoStr.

Definition len (s : string) : Z := Z.of_nat (String.length s).

(** [int] is a signed 64-bit integer. *)
Definition wrap (z : Z) : Z := (z + 2 ^ 63) mod 2 ^ 64 - 2 ^ 63.

Definition is_upper (c : ascii) : bool :=
  (65 <=? nat_of_ascii c)%nat && (nat_of_ascii c <=? 90)%nat.

Definition lower_byte (c : ascii) : ascii :=
  if is_upper c then ascii_of_nat (nat_of_ascii c + 32) else c.

(** [strings.ToLower] on its ASCII path: the bytes ['A'..'Z'] are moved to
    ['a'..'z'].  Bytes above 0x7f belong to multi-byte runes, which Go maps
    through its Unicode tables; they are left as they are here. *)
Fixpoint ToLower (s : string) : string :=
  match s with
  | EmptyString => EmptyString
  | String c s' => String (lower_byte c) (ToLower s')
  end.

Definition HasPrefix (s p : string) : bool := String.prefix p s.

(** [strings.Contains s sub]: [sub] occurs in [s] at some offset. *)
Fixpoint Contains (s sub : string) : bool :=
  match s with
  | EmptyString => String.prefix sub EmptyString
  | String _ s' => String.prefix sub s || Contains s' sub
  end.

(** The slice expression [s[:k]]; [None] is the run-time panic for an
    index out of range. *)
Definition slice_to (s : string) (k : Z) : option string :=
  if (0 <=? k) && (k <=? len s)
  then Some (String.substring 0 (Z.to_nat k) s)
  else None.

(** [strings.Split s sep] for a one-byte separator. *)
Fixpoint Split (sep : ascii) (s : string) : list string :=
  match s with
  | EmptyString => [EmptyString]
  | String c s' =>
      if Ascii.eqb c sep then EmptyString :: Split sep s'
      else match Split sep s' with
           | [] => [String c EmptyString]
           | p :: ps => String c p :: ps
           end
  end.

(** [strings.Cut s sep] for a one-byte separator: the text before the
    first separator and the text after it (empty when there is none). *)
Fixpoint Cut (sep : ascii) (s : string) : string * string :=
  match s with
  | EmptyString => (EmptyString, EmptyString)
  | String c s' =>
      if Ascii.eqb c sep then (EmptyString, s')
      else let '(a, b) := Cut sep s' in (String c a, b)
  end.

(** [utf8.RuneCountInString]: the number of runes, a byte that starts no
    well-formed encoding counting as one rune of its own.  [first_byte] is
    the entry of the leading byte in the decoder's table: the length of the
    encoding and the range allowed for its second byte; the later bytes
    are continuation bytes, [0x80..0xBF]. *)
Definition between (lo hi : nat) (c : ascii) : bool :=
  (lo <=? nat_of_ascii c)%nat && (nat_of_ascii c <=? hi)%nat.

Definition first_byte (c : ascii) : option (nat * nat * nat) :=
  let n := nat_of_ascii c in
  if (n <? 194)%nat then None
  else if (n <=? 223)%nat then Some (2, 128, 191)%nat
  else if (n =? 224)%nat then Some (3, 160, 191)%nat
  else if (n <=? 236)%nat then Some (3, 128, 191)%nat
  else if (n =? 237)%nat then Some (3, 128, 159)%nat
  else if (n <=? 239)%nat then Some (3, 128, 191)%nat
  else if (n =? 240)%nat then Some (4, 144, 191)%nat
  else if (n <=? 243)%nat then Some (4, 128, 191)%nat
  else if (n =? 244)%nat then Some (4, 128, 143)%nat
  else None.

(** The number of bytes of the rune that starts the text [String c rest]. *)
Definition rune_size (c : ascii) (rest : string) : nat :=
  if (nat_of_ascii c <? 128)%nat then 1%nat
  else
    match first_byte c with
    | None => 1%nat
    | Some (size, lo, hi) =>
        if (S (String.length rest) <? size)%nat then 1%nat
        else
          match rest with
          | String c1 rest1 =>
              if negb (between lo hi c1) then 1%nat
              else if (size =? 2)%nat then 2%nat
              else
                match rest1 with
                | String c2 rest2 =>
                    if negb (between 128 191 c2) then 1%nat
                    else if (size =? 3)%nat then 3%nat
                    else
                      match rest2 with
                      | String c3 _ =>
                          if negb (between 128 191 c3) then 1%nat else 4%nat
                      | EmptyString => 1%nat
                      end
                | EmptyString => 1%nat
                end
          | EmptyString => 1%nat
          end
    end.

(** [skip] is the number of bytes left of the rune being stepped over. *)
Fixpoint count_runes (skip : nat) (s : string) : nat :=
  match s with
  | EmptyString => 0%nat
  | String c rest =>
      match skip with
      | S k => count_runes k rest
      | O => S (count_runes (rune_size c rest - 1) rest)
      end
  end.

Definition RuneCountInString (s : string) : nat := count_runes 0 s.

End GoStr.

Import GoStr.

(** ** Data model shared by the two programs *)

Record FieldMatcher := mkFieldMatcher { Matcher : string; Value : string }.

Definition exact (v : string) : FieldMatcher :=
  {| Matcher := "exact"; Value := v |}.

(** [type Header map[string][]string] *)
Abbreviation Header := (gmap string (list string)).

Record Request := mkRequest {
  Method : list FieldMatcher;
  Destination : list FieldMatcher;
  Path : list FieldMatcher;
  Body : option (list FieldMatcher);
  Headers : gmap string (list FieldMatcher);
  Query : gmap string (list FieldMatcher)
}.

Record Response := mkResponse {
  Status : Z;
  RBody : string;
  RHeaders : Header
}.

Record Pair := mkPair {
  PRequest : Request;
  PResponse : Response;
  Labels : list string
}.

(** The document: [Data.Pairs], [Data.GlobalActions.Delays] and
    [Meta.SchemaVersion]. *)
Record Simulation := mkSimulation {
  Pairs : list Pair;
  Delays : list string;
  SchemaVersion : string
}.

(** The keys that [encoding/json] writes for a [Request]: [body], [headers]
    and [query] carry [omitempty], so they are written only when the slice
    or map has at least one element. *)
Definition request_json_keys (r : Request) : list string :=
  ["method"; "destination"; "path"]
  ++ (match Body r with Some (_ :: _) => ["body"] | _ => [] end)
  ++ (if decide (Headers r = ∅) then [] else ["headers"])
  ++ (if decide (Query r = ∅) then [] else ["query"]).

(** Every matcher of a request, wherever it sits. *)
Definition request_matchers (r : Request) : list FieldMatcher :=
  Method r ++ Destination r ++ Path r
  ++ default [] (Body r)
  ++ mjoin (snd <$> map_to_list (Headers r))
  ++ mjoin (snd <$> map_to_list (Query r)).

(** ** The pieces of Go's [net/url] package that the programs call *)

Module GoUrl.

(** The fields of [url.URL] that [Parse] fills and the programs read. *)
Record URL := mkURL {
  Scheme : string;
  Opaque : string;
  Host : string;
  UPath : string;
  RawQuery : string;
  Fragment : string
}.

(** [&url.URL{}] *)
Definition empty_URL : URL := mkURL "" "" "" "" "" "".

Inductive encoding :=
  encodePath | encodeHost | encodeUserPassword | encodeQueryComponent
| encodeFragment.

Definition byte_in (lo hi : nat) (c : ascii) : bool :=
  (lo <=? nat_of_ascii c)%nat && (nat_of_ascii c <=? hi)%nat.

Definition is_letter (c : ascii) : bool := byte_in 97 122 c || byte_in 65 90 c.
Definition is_digit (c : ascii) : bool := byte_in 48 57 c.
Definition ishex (c : ascii) : bool :=
  is_digit c || byte_in 97 102 c || byte_in 65 70 c.

Definition unhex (c : ascii) : nat :=
  let n := nat_of_ascii c in
  if is_digit c then (n - 48)%nat
  else if byte_in 97 102 c then (n - 97 + 10)%nat
  else if byte_in 65 70 c then (n - 65 + 10)%nat
  else 0%nat.

Definition one_of (cs : string) (c : ascii) : bool :=
  existsb (Ascii.eqb c) (String.list_ascii_of_string cs).

(** [shouldEscape c encodeHost] on an ASCII byte: letters, digits, the
    sub-delimiters the host position allows and the unreserved marks stay;
    every other byte must be escaped. *)
Definition host_byte_ok (c : ascii) : bool :=
  is_letter c || is_digit c || one_of "!$&'()*+,;=:[]<>" c
  || Ascii.eqb c "034" || one_of "-_.~" c.

(** [unescape s mode]: [%XX] becomes the byte [XX], and [+] a space in a
    query component; [None] for a malformed escape and, in a host, for an
    escape of an ASCII byte other than [%25] and for a byte that should
    have been escaped. *)
Fixpoint unescape (mode : encoding) (s : string) : option string :=
  match s with
  | EmptyString => Some EmptyString
  | String "%" (String a (String b rest)) =>
      if ishex a && ishex b then
        if match mode with encodeHost => true | _ => false end
           && (unhex a <? 8)%nat
           && negb (Ascii.eqb a "2" && Ascii.eqb b "5")
        then None
        else String (ascii_of_nat (16 * unhex a + unhex b)) <$> unescape mode rest
      else None
  | String "%" _ => None
  | String "+" rest =>
      String (match mode with encodeQueryComponent => " " | _ => "+" end)%char
        <$> unescape mode rest
  | String c rest =>
      if match mode with encodeHost => true | _ => false end
         && (nat_of_ascii c <? 128)%nat && negb (host_byte_ok c)
      then None
      else String c <$> unescape mode rest
  end.

Inductive scheme_result :=
| SchemeError
| NoScheme
| HasScheme (scheme rest : string).

(** [getScheme]: [at0] is [i == 0]. *)
Fixpoint scan_scheme (at0 : bool) (s : string) : scheme_result :=
  match s with
  | EmptyString => NoScheme
  | String c s' =>
      let continue :=
        match scan_scheme false s' with
        | HasScheme sch rest => HasScheme (String c sch) rest
        | r => r
        end in
      if is_letter c then continue
      else if is_digit c || one_of "+-." c then
        if at0 then NoScheme else continue
      else if Ascii.eqb c ":" then
        if at0 then SchemeError else HasScheme EmptyString s'
      else NoScheme
  end.

Definition getScheme (rawURL : string) : option (string * string) :=
  match scan_scheme true rawURL with
  | SchemeError => None
  | NoScheme => Some (EmptyString, rawURL)
  | HasScheme sch rest => Some (sch, rest)
  end.

Definition stringContainsCTLByte (s : string) : bool :=
  existsb (fun c => (nat_of_ascii c <? 32)%nat || (nat_of_ascii c =? 127)%nat)
          (String.list_ascii_of_string s).

(** The text up to the first [c], and the text from that [c] on. *)
Fixpoint break_at (c : ascii) (s : string) : string * string :=
  match s with
  | EmptyString => (EmptyString, EmptyString)
  | String d s' =>
      if Ascii.eqb d c then (EmptyString, s)
      else let '(a, b) := break_at c s' in (String d a, b)
  end.

(** The text before the last [c] and the text after it, when there is
    one. *)
Fixpoint cut_last (c : ascii) (s : string) : option (string * string) :=
  match s with
  | EmptyString => None
  | String d s' =>
      match cut_last c s' with
      | Some (a, b) => Some (String d a, b)
      | None => if Ascii.eqb d c then Some (EmptyString, s') else None
      end
  end.

Definition all_digits (s : string) : bool :=
  forallb is_digit (String.list_ascii_of_string s).

(** [validOptionalPort] of the text from a colon on: the colon, then
    digits only. *)
Definition validOptionalPort (colonPort : string) : bool :=
  match colonPort with
  | EmptyString => true
  | String c port => Ascii.eqb c ":" && all_digits port
  end.

(** [parseHost] for a host that is a name or an IPv4 address.  The text
    from the first colon on must be a port (Go 1.26; earlier releases test
    the text from the last colon on). *)
Definition parseHost (host : string) : option string :=
  if validOptionalPort (snd (break_at ":" host))
  then unescape encodeHost host
  else None.

(** [validUserinfo]: letters, digits and the listed marks only. *)
Definition validUserinfo (s : string) : bool :=
  forallb (fun c => is_letter c || is_digit c || one_of "-._:~!$&'()*+,;=%@" c)
          (String.list_ascii_of_string s).

(** [parseAuthority]: the host is what follows the last [@]; the user
    information before it must be well formed (the [User] it makes is not
    kept here, no program reads it).  One shape is outside this model and
    rejected by it: a bracketed IP literal ([[::1]]). *)
Definition parseAuthority (authority : string) : option string :=
  let '(userinfo, host) :=
    match cut_last "@" authority with
    | Some (userinfo, host) => (Some userinfo, host)
    | None => (None, authority)
    end in
  if HasPrefix host "[" then None
  else
    host ← parseHost host;
    match userinfo with
    | None => Some host
    | Some userinfo =>
        if validUserinfo userinfo then
          let '(username, password) := Cut ":" userinfo in
          _ ← unescape encodeUserPassword username;
          _ ← unescape encodeUserPassword password;
          Some host
        else None
    end.

(** [parse rawURL false], the part of [Parse] before the fragment. *)
Definition parse (rawURL : string) : option URL :=
  if stringContainsCTLByte rawURL then None
  else if String.eqb rawURL "*" then Some (mkURL "" "" "" "*" "" "")
  else
    '(scheme, rest) ← getScheme rawURL;
    let scheme := ToLower scheme in
    let '(rest, rawquery) := Cut "?" rest in
    if negb (HasPrefix rest "/") && negb (String.eqb scheme "")
    then Some (mkURL scheme rest "" "" rawquery "")
    else if negb (HasPrefix rest "/") && Contains (fst (Cut "/" rest)) ":"
    then None
    else if HasPrefix rest "//"
            && (negb (String.eqb scheme "") || negb (HasPrefix rest "///"))
    then
      let '(authority, rest) :=
        break_at "/" (String.substring 2 (String.length rest - 2) rest) in
      host ← parseAuthority authority;
      path ← unescape encodePath rest;
      Some (mkURL scheme "" host path rawquery "")
    else
      path ← unescape encodePath rest;
      Some (mkURL scheme "" "" path rawquery "").

(** [url.Parse]: the fragment is cut off first. *)
Definition Parse (rawURL : string) : option URL :=
  let '(u, frag) := Cut "#" rawURL in
  url ← parse u;
  frag ← unescape encodeFragment frag;
  Some (mkURL (Scheme url) (Opaque url) (Host url) (UPath url)
              (RawQuery url) frag).

(** [ParseQuery], as the list of [(key, value)] additions it makes to the
    [Values] map, in the order of the query string.  A piece that holds a
    semicolon, is empty, or has a malformed escape is dropped; the error it
    raises is the one that [URL.Query] discards. *)
Definition query_piece (piece : string) : option (string * string) :=
  if Contains piece ";" then None
  else if String.eqb piece "" then None
  else
    let '(key, value) := Cut "=" piece in
    key ← unescape encodeQueryComponent key;
    value ← unescape encodeQueryComponent value;
    Some (key, value).

Definition ParseQuery (query : string) : list (string * string) :=
  omap query_piece (Split "&" query).

End GoUrl.

Import GoUrl.

(** [m[k] = append(m[k], v)]: a missing key reads as the [nil] slice. *)
Definition append_at {V} (k : string) (v : V) (m : gmap string (list V))
  : gmap string (list V) :=
  <[k := default [] (m !! k) ++ [v]]> m.

(** A [for] loop whose body may panic: [None] is the panic. *)
Fixpoint loop {St En} (body : St → En → option St) (st : St) (es : list En)
  : option St :=
  match es with
  | [] => Some st
  | e :: es' => st' ← body st e; loop body st' es'
  end.

Definition spaces (n : nat) : string :=
  String.string_of_list_ascii (replicate n " "%char).

(** The verb [%-Ns]: the text, then spaces up to [width] columns, which
    [fmt] counts in runes; a text of [width] runes or more is left as it
    is. *)
Definition pad_right (width : nat) (s : string) : string :=
  s +:+ spaces (width - RuneCountInString s).

(** * [har-to-hoverfly.go] *)

Module Positional.

Module HAR.
Record NameValue := mkNameValue { Name : string; Value : string }.
Record EntryRequest := mkEntryRequest {
  Method : string;
  URL : string;
  Headers : list NameValue;
  PostData : string (* PostData.Text *)
}.
Record EntryResponse := mkEntryResponse {
  Status : Z;
  RespHeaders : list NameValue; (* Headers *)
  Content : string (* Content.Text *)
}.
Record Entry := mkEntry { Request : EntryRequest; Response : EntryResponse }.
End HAR.

(** The flags of [main], as parsed. *)
Record Flags := mkFlags {
  outputFile : string;
  maxResponseSize : Z;
  skipNonText : bool;
  hostFilter : string;
  summarise : bool
}.

Definition isTextContentType (contentType : string) : bool :=
  let lower := ToLower contentType in
  Contains lower "json" || Contains lower "text" || Contains lower "xml".

Definition truncate (s : string) (max : Z) : option string :=
  if len s <=? max then Some s
  else if max <=? 3 then slice_to s max
  else (λ p, p +:+ "...") <$> slice_to s (wrap (max - 3)).

(** The widths [main] passes to [truncate], which are also the widths of
    the [%-10s %-50s %-50s] row format. *)
Definition method_width : Z := 10.
Definition path_width : Z := 50.
Definition query_width : Z := 50.

Definition column_widths : list Z := [method_width; path_width; query_width].

(** [fmt.Sprintf("%-10s %-50s %-50s", method, path, query)] *)
Definition Sprintf_row (method path query : string) : string :=
  pad_right (Z.to_nat method_width) method +:+ " "
  +:+ pad_right (Z.to_nat path_width) path +:+ " "
  +:+ pad_right (Z.to_nat query_width) query.

(** The request-header loop of [main]. *)
Definition reqHeaders (hs : list HAR.NameValue) : gmap string (list FieldMatcher) :=
  foldl (λ m h, append_at (HAR.Name h) (exact (HAR.Value h)) m) ∅ hs.

(** [u.Query()]: the [Values] map that [ParseQuery] fills. *)
Definition URL_Query (u : URL) : gmap string (list string) :=
  foldl (λ m '(k, v), append_at k v m) ∅ (ParseQuery (RawQuery u)).

(** The two nested query loops of [main], run over the keys of the
    [Values] map in the order [kvs] enumerates them. *)
Definition reqQuery_of (kvs : list (string * list string))
  : gmap string (list FieldMatcher) :=
  foldl (λ m '(key, values),
           foldl (λ m v, append_at key (exact v) m) m values) ∅ kvs.

Definition reqQuery (u : URL) : gmap string (list FieldMatcher) :=
  reqQuery_of (map_to_list (URL_Query u)).

(** The response-header loop of [main]: the content type seen last, and the
    header map. *)
Definition respHeaders (hs : list HAR.NameValue) : string * Header :=
  foldl (λ '(contentType, headersMap) h,
           (if String.eqb (ToLower (HAR.Name h)) "content-type"
            then HAR.Value h else contentType,
            append_at (HAR.Name h) (HAR.Value h) headersMap))
        (EmptyString, ∅) hs.

(** The two [if] statements that follow [responseBody := ...Content.Text]. *)
Definition responseBody (fl : Flags) (contentType text : string) : string :=
  let responseBody := text in
  let responseBody :=
    if (0 <=? maxResponseSize fl) && (maxResponseSize fl <? len responseBody)
    then EmptyString else responseBody in
  let responseBody :=
    if skipNonText fl && negb (isTextContentType contentType)
    then "NON_TEXT_RESPONSE_SKIPPED" else responseBody in
  responseBody.

Section WithParser.

(** [url.Parse], [None] being its error. *)
Variable url_Parse : string → option URL.

(** One iteration of the simulation loop; [None] is [continue]. *)
Definition entry_pair (fl : Flags) (entry : HAR.Entry) : option Pair :=
  let r := HAR.Request entry in
  match url_Parse (HAR.URL r) with
  | None => None
  | Some u =>
      if negb (String.eqb (hostFilter fl) "")
         && negb (String.eqb (Host u) (hostFilter fl))
      then None
      else
        let '(contentType, headersMap) :=
          respHeaders (HAR.RespHeaders (HAR.Response entry)) in
        let pair_ :=
          {| PRequest :=
               {| Method := [exact (HAR.Method r)];
                  Destination := [exact (Host u)];
                  Path := [exact (UPath u)];
                  Body := None;
                  Headers := reqHeaders (HAR.Headers r);
                  Query := reqQuery u |};
             PResponse :=
               {| Status := HAR.Status (HAR.Response entry);
                  RBody := responseBody fl contentType
                             (HAR.Content (HAR.Response entry));
                  RHeaders := headersMap |};
             Labels := [] |} in
        Some (if String.eqb (HAR.PostData r) "" then pair_
              else
                {| PRequest :=
                     {| Method := Method (PRequest pair_);
                        Destination := Destination (PRequest pair_);
                        Path := Path (PRequest pair_);
                        Body := Some [exact (HAR.PostData r)];
                        Headers := Headers (PRequest pair_);
                        Query := Query (PRequest pair_) |};
                   PResponse := PResponse pair_;
                   Labels := Labels pair_ |})
  end.

Definition simulate (fl : Flags) (entries : list HAR.Entry) : Simulation :=
  {| Pairs :=
       foldl (λ pairs entry,
                match entry_pair fl entry with
                | Some pair_ => pairs ++ [pair_]
                | None => pairs
                end) [] entries;
     Delays := [];
     SchemaVersion := "v5.3" |}.

(** One iteration of the summary loop; [None] is a panic in [truncate]. *)
Definition summary_entry (fl : Flags) (summaryMap : gmap string (list string))
    (entry : HAR.Entry) : option (gmap string (list string)) :=
  let r := HAR.Request entry in
  match url_Parse (HAR.URL r) with
  | None => Some summaryMap
  | Some u =>
      if negb (String.eqb (hostFilter fl) "")
         && negb (String.eqb (Host u) (hostFilter fl))
      then Some summaryMap
      else
        method ← truncate (HAR.Method r) method_width;
        path ← truncate (UPath u) path_width;
        query ← truncate (RawQuery u) query_width;
        Some (append_at (Host u) (Sprintf_row method path query) summaryMap)
  end.

(** What a run builds before it prints: the host-to-rows map in summary
    mode, the document otherwise. *)
Inductive Output :=
| Summary (summaryMap : gmap string (list string))
| Document (sim : Simulation).

Definition main (fl : Flags) (entries : list HAR.Entry) : option Output :=
  if summarise fl
  then Summary <$> loop (summary_entry fl) ∅ entries
  else Some (Document (simulate fl entries)).

End WithParser.

End Positional.

(** * The program with [--input] and [convertEntryToPair] *)

Module Named.

(** [Entry] also carries [StartedDateTime] and [Time]; nothing reads them. *)
Module HAR.
Record EntryRequest := mkEntryRequest { Method : string; URL : string }.
Record EntryResponse := mkEntryResponse {
  Status : Z;
  MimeType : string; (* Content.MimeType *)
  Text : string (* Content.Text *)
}.
Record Entry := mkEntry { Request : EntryRequest; Response : EntryResponse }.
End HAR.

(** The flags of [main], as parsed. *)
Record Flags := mkFlags {
  inputFile : string;
  outputFile : string;
  sizeLimit : Z;
  ignoreNonText : bool;
  allowedTypes : string;
  restrictHost : string;
  summarise : bool
}.

(** The default value of [--allowed-content-types]. *)
Definition default_allowedTypes : string := "json,xml,text/html,text/javascript".

Definition isTextContent (mimeType : string) (allowed : list string) : bool :=
  let mimeType := ToLower mimeType in
  existsb (λ substr, Contains mimeType substr) allowed.

Definition truncate (s : string) (max : Z) : option string :=
  if max <? len s
  then (λ p, p +:+ "...") <$> slice_to s (wrap (max - 3))
  else Some s.

(** The widths of the [%-30s %-10s %-50s %-50s] row format; [main] passes
    the path width to [truncate] and prints host and method as they are. *)
Definition host_width : Z := 30.
Definition method_width : Z := 10.
Definition path_width : Z := 50.
Definition query_width : Z := 50.

Definition column_widths : list Z :=
  [host_width; method_width; path_width; query_width].

(** [table[host][path][method] = true], the inner maps made on first use. *)
Abbreviation Table := (gmap string (gmap string (gmap string bool))).

Definition table_set (host path method : string) (table : Table) : Table :=
  let paths := default ∅ (table !! host) in
  let methods := default ∅ (paths !! path) in
  <[host := <[path := <[method := true]> methods]> paths]> table.

(** [fmt.Printf("%-30s %-10s %-50s %-50s\n", host, method, path, "")] *)
Definition Sprintf_row (host method path : string) : string :=
  pad_right (Z.to_nat host_width) host +:+ " "
  +:+ pad_right (Z.to_nat method_width) method +:+ " "
  +:+ pad_right (Z.to_nat path_width) path +:+ " "
  +:+ pad_right (Z.to_nat query_width) "" +:+ String "010" "".

Section WithParser.

(** [url.Parse], [None] being its error. *)
Variable url_Parse : string → option URL.

Definition parseURL (raw : string) : URL :=
  match url_Parse raw with
  | None => empty_URL
  | Some u => u
  end.

Definition convertEntryToPair (entry : HAR.Entry) (sizeLimit : Z)
    (allowedContentTypes : list string) : Pair :=
  let req := HAR.Request entry in
  let res := HAR.Response entry in
  let body := HAR.Text res in
  let body :=
    if (0 <? sizeLimit) && (sizeLimit <? len body) then EmptyString else body in
  let reqURL := parseURL (HAR.URL req) in
  let request :=
    {| Method := [exact (HAR.Method req)];
       Destination := [exact (Host reqURL)];
       Path := [exact (UPath reqURL)];
       Body := None;
       Headers := ∅;
       Query := ∅ |} in
  let response :=
    {| Status := HAR.Status res;
       RBody := body;
       RHeaders := {[ "Content-Type" := [HAR.MimeType res] ]} |} in
  {| PRequest := request; PResponse := response; Labels := [HAR.Method req] |}.

(** One iteration of the loop of [main] over the pairs and the table. *)
Definition process_entry (fl : Flags) (allowedContentTypes : list string)
    (st : list Pair * Table) (entry : HAR.Entry) : list Pair * Table :=
  let '(pairs, table) := st in
  let req := HAR.Request entry in
  let res := HAR.Response entry in
  let reqURL := parseURL (HAR.URL req) in
  if negb (String.eqb (restrictHost fl) "")
     && negb (Contains (HAR.URL req) (restrictHost fl))
  then st
  else
    let isText := isTextContent (HAR.MimeType res) allowedContentTypes in
    if ignoreNonText fl && negb isText then st
    else if summarise fl
    then (pairs, table_set (Host reqURL) (UPath reqURL) (HAR.Method req) table)
    else (pairs ++ [convertEntryToPair entry (sizeLimit fl) allowedContentTypes],
          table).

Definition run (fl : Flags) (entries : list HAR.Entry) : list Pair * Table :=
  foldl (process_entry fl (Split "," (allowedTypes fl))) ([], ∅) entries.

(** The rows of the summary, one for each host, path and method of the
    table; a row is [None] when [truncate] panics. *)
Definition summary_rows (table : Table) : list (option string) :=
  '(host, paths) ← map_to_list table;
  '(path, methods) ← map_to_list paths;
  '(method, _) ← map_to_list methods;
  [Sprintf_row host method <$> truncate path path_width].

Inductive Output :=
| Summary (rows : list (option string))
| Document (sim : Simulation).

Definition main (fl : Flags) (entries : list HAR.Entry) : Output :=
  let '(pairs, table) := run fl entries in
  if summarise fl then Summary (summary_rows table)
  else Document {| Pairs := pairs; Delays := []; SchemaVersion := "v5.3" |}.

End WithParser.

End Named.

(** * Multi-valued fields

    The words in which the header and query maps are described: the values
    observed under a key in a sequence of key/value pairs, in the order of
    the sequence, and the map entry they make (no entry for no value). *)

Definition values_at {V} (k : string) (kvs : list (string * V)) : list V :=
  snd <$> filter (λ kv, kv.1 = k) kvs.

Definition grouped {V} (vs : list V) : option (list V) :=
  match vs with [] => None | _ => Some vs end.

(** The request headers of an entry as key/value pairs. *)
Definition header_pairs (hs : list Positional.HAR.NameValue)
  : list (string * string) :=
  (λ h, (Positional.HAR.Name h, Positional.HAR.Value h)) <$> hs.

(** The pairs [(key, v)] in the order in which the nested query loops
    append them. *)
Definition flat_values (kvs : list (string * list string))
  : list (string * string) :=
  kvs ≫= λ '(key, values), (λ v, (key, v)) <$> values.

(** * The rules of the loops, in words of their own

    What the loops are compared with below: the test that the second
    program's loop applies to an entry, the triple it records in summary
    mode, a lookup through the three levels of its table, and the host and
    row that the summary loop of [har-to-hoverfly.go] adds for an entry. *)

Definition named_included (fl : Named.Flags) (e : Named.HAR.Entry) : bool :=
  (String.eqb (Named.restrictHost fl) ""
   || Contains (Named.HAR.URL (Named.HAR.Request e)) (Named.restrictHost fl))
  && (negb (Named.ignoreNonText fl)
      || Named.isTextContent (Named.HAR.MimeType (Named.HAR.Response e))
           (Split "," (Named.allowedTypes fl))).

Definition entry_triple (url_Parse : string → option URL) (e : Named.HAR.Entry)
  : string * string * string :=
  let reqURL := Named.parseURL url_Parse (Named.HAR.URL (Named.HAR.Request e)) in
  (Host reqURL, UPath reqURL, Named.HAR.Method (Named.HAR.Request e)).

(** [table[host][path][method]], with [ok] false at any level. *)
Definition table_lookup (table : Named.Table) (host path method : string)
  : option bool :=
  paths ← table !! host; methods ← paths !! path; methods !! method.

Definition summary_row (url_Parse : string → option URL)
    (fl : Positional.Flags) (e : Positional.HAR.Entry) : option (string * string) :=
  let r := Positional.HAR.Request e in
  u ← url_Parse (Positional.HAR.URL r);
  if negb (String.eqb (Positional.hostFilter fl) "")
     && negb (String.eqb (Host u) (Positional.hostFilter fl))
  then None
  else
    method ← Positional.truncate (Positional.HAR.Method r) Positional.method_width;
    path ← Positional.truncate (UPath u) Positional.path_width;
    query ← Positional.truncate (RawQuery u) Positional.query_width;
    Some (Host u, Positional.Sprintf_row method path query).

(** What a summary cell cut to [w] bytes is: the value itself when it
    fits, otherwise a prefix of it followed by three dots, no longer than
    [w]; [cell] is the result of the call, [None] being a panic. *)
Definition truncated_cell (s : string) (w : Z) (cell : option string) : Prop :=
  (len s <= w → cell = Some s)
  ∧ (w < len s →
     ∃ p, cell = Some (p +:+ "...")
          ∧ HasPrefix s p = true
          ∧ len (p +:+ "...") <= w).

(** A token with a byte in ['A'..'Z']. *)
Definition has_upper (s : string) : bool :=
  existsb is_upper (String.list_ascii_of_string s).

(** * Sample runs

    Entries and flags on which the programs are run below.  [Parse] above
    stands for [url.Parse] in these runs. *)

Module Samples.

(** [GET http://api.example.com/api/products?category=shoes&limit=5] with
    a repeated request header, answered [200 "ok"] with the given response
    headers. *)
Definition products (respHeaders : list Positional.HAR.NameValue)
  : Positional.HAR.Entry :=
  Positional.HAR.mkEntry
    (Positional.HAR.mkEntryRequest "GET"
       "http://api.example.com/api/products?category=shoes&limit=5&category=boots"
       [Positional.HAR.mkNameValue "Accept" "text/html";
        Positional.HAR.mkNameValue "Cookie" "a=1";
        Positional.HAR.mkNameValue "Accept" "application/json"]
       "")
    (Positional.HAR.mkEntryResponse 200 respHeaders "ok").

Definition plain_entry : Positional.HAR.Entry :=
  products [Positional.HAR.mkNameValue "Content-Type" "text/plain"].

Definition png_entry : Positional.HAR.Entry :=
  products [Positional.HAR.mkNameValue "Content-Type" "image/png"].

(** A [POST] with a body whose response has no [Content-Type] header. *)
Definition bare_entry : Positional.HAR.Entry :=
  Positional.HAR.mkEntry
    (Positional.HAR.mkEntryRequest "POST" "http://api.example.com/api/shoe"
       [] "{}")
    (Positional.HAR.mkEntryResponse 201
       [Positional.HAR.mkNameValue "Server" "nginx"] "ok").

(** [url.Parse] answers "missing protocol scheme" for this URL. *)
Definition bad_URL : string := ":bad".

Definition bad_entry : Positional.HAR.Entry :=
  Positional.HAR.mkEntry
    (Positional.HAR.mkEntryRequest "GET" bad_URL [] "")
    (Positional.HAR.mkEntryResponse 200 [] "ok").

(** No flag given. *)
Definition no_flags : Positional.Flags :=
  Positional.mkFlags "" (-1) false "" false.

(** [--max-response-bytes 1 --skip-non-text] *)
Definition limit1_skip : Positional.Flags :=
  Positional.mkFlags "" 1 true "" false.

(** [--skip-non-text] *)
Definition skip_only : Positional.Flags :=
  Positional.mkFlags "" (-1) true "" false.

Definition named_plain : Named.HAR.Entry :=
  Named.HAR.mkEntry
    (Named.HAR.mkEntryRequest "GET"
       "http://api.example.com/api/products?category=shoes&limit=5")
    (Named.HAR.mkEntryResponse 200 "text/plain" "ok").

Definition named_bad : Named.HAR.Entry :=
  Named.HAR.mkEntry (Named.HAR.mkEntryRequest "GET" bad_URL)
    (Named.HAR.mkEntryResponse 200 "application/json" "ok").

(** A request to [other.com] that names [api.example.com] in its query. *)
Definition named_redirect : Named.HAR.Entry :=
  Named.HAR.mkEntry
    (Named.HAR.mkEntryRequest "GET"
       "http://other.com/redirect?to=api.example.com")
    (Named.HAR.mkEntryResponse 200 "application/json" "ok").

(** A URL with a malformed escape, which [url.Parse] refuses, on the host
    [api.example.com]. *)
Definition named_bad_escape : Named.HAR.Entry :=
  Named.HAR.mkEntry
    (Named.HAR.mkEntryRequest "GET" "http://api.example.com/%zz")
    (Named.HAR.mkEntryResponse 200 "application/json" "ok").

(** A request whose method is longer than the ten columns it is given. *)
Definition named_long_method : Named.HAR.Entry :=
  Named.HAR.mkEntry
    (Named.HAR.mkEntryRequest "PROPPATCHING" "http://api.example.com/x")
    (Named.HAR.mkEntryResponse 200 "application/json" "ok").

(** [--input in.har --summarise] *)
Definition named_summarise : Named.Flags :=
  Named.mkFlags "in.har" "" 0 false Named.default_allowedTypes "" true.

(** [--input in.har] and nothing else. *)
Definition named_defaults : Named.Flags :=
  Named.mkFlags "in.har" "" 0 false Named.default_allowedTypes "" false.

(** [--input in.har --host api.example.com] *)
Definition named_host : Named.Flags :=
  Named.mkFlags "in.har" "" 0 false Named.default_allowedTypes
    "api.example.com" false.

End Samples.

(** * Properties *)

(** ** The library models on the sample inputs *)

Example Parse_products :
  Parse "http://api.example.com/api/products?category=shoes&limit=5"
  = Some (mkURL "http" "" "api.example.com" "/api/products"
            "category=shoes&limit=5" "").
Proof. reflexivity. Qed.

Example Parse_missing_scheme : Parse Samples.bad_URL = None.
Proof. reflexivity. Qed.

Example ParseQuery_repeated_key :
  ParseQuery "category=shoes&limit=5&category=boots&&a;b=1&x=%zz&y=a+b%21"
  = [("category", "shoes"); ("limit", "5"); ("category", "boots");
     ("y", "a b!")].
Proof. reflexivity. Qed.

Example Split_default_allowedTypes :
  Split "," Named.default_allowedTypes
  = ["json"; "xml"; "text/html"; "text/javascript"].
Proof. reflexivity. Qed.

Example ToLower_content_type :
  ToLower "Application/JSON; charset=UTF-8" = "application/json; charset=utf-8".
Proof. reflexivity. Qed.

(** ** Strings *)

Section StringFacts.

Lemma app_String (c : ascii) (s t : string) :
  String c s +:+ t = String c (s +:+ t).
Proof. reflexivity. Qed.

Lemma len_app (s t : string) : len (s +:+ t) = len s + len t.
Proof.
  unfold len. induction s as [|c s IH]; [ reflexivity | ].
  rewrite app_String. cbn [String.length]. lia.
Qed.

Lemma len_nonneg (s : string) : 0 <= len s.
Proof. unfold len. lia. Qed.

Lemma length_take (n : nat) (s : string) :
  (n <= String.length s)%nat → String.length (String.substring 0 n s) = n.
Proof.
  revert s. induction n as [|n IH]; intros [|c s] Hn; cbn in *;
    first [ reflexivity | lia | rewrite IH; lia ].
Qed.

Lemma take_prefix (n : nat) (s : string) :
  String.prefix (String.substring 0 n s) s = true.
Proof.
  revert s. induction n as [|n IH]; intros [|c s]; cbn; try reflexivity.
  destruct (ascii_dec c c); [ apply IH | congruence ].
Qed.

Lemma prefix_app (p s : string) :
  String.prefix p s = true ↔ ∃ t, s = p +:+ t.
Proof.
  revert s. induction p as [|c p IH]; intros [|d s]; cbn.
  - split; [ exists EmptyString; reflexivity | reflexivity ].
  - split; [ exists (String d s); reflexivity | reflexivity ].
  - split; [ discriminate | intros [t Ht]; discriminate ].
  - destruct (ascii_dec c d) as [->|Hne].
    + idtac.
      rewrite IH. split; intros [t Ht]; exists t.
      * rewrite app_String. congruence.
      * rewrite app_String in Ht. congruence.
    + split; [ discriminate | ].
      intros [t Ht]. rewrite app_String in Ht. congruence.
Qed.

(** [Contains] finds exactly the occurrences of [sub]. *)
Lemma Contains_occurs (s sub : string) :
  Contains s sub = true ↔ ∃ a b, s = a +:+ sub +:+ b.
Proof.
  induction s as [|c s IH]; cbn [Contains].
  - rewrite prefix_app. split.
    + intros [t Ht]. exists EmptyString, t. exact Ht.
    + intros ([|d a] & b & Hab); [ exists b; exact Hab | discriminate ].
  - rewrite orb_true_iff, IH, prefix_app. split.
    + intros [[t Ht] | (a & b & Hab)].
      * exists EmptyString, t. exact Ht.
      * exists (String c a), b. rewrite app_String. congruence.
    + intros ([|d a] & b & Hab).
      * left. exists b. exact Hab.
      * right. exists a, b. rewrite app_String in Hab. congruence.
Qed.

Lemma wrap_small (z : Z) : - 2 ^ 63 <= z < 2 ^ 63 → wrap z = z.
Proof. intros Hz. unfold wrap. rewrite Z.mod_small; lia. Qed.

Lemma slice_to_Some (s : string) (k : Z) :
  0 <= k <= len s →
  ∃ p, slice_to s k = Some p ∧ len p = k ∧ HasPrefix s p = true.
Proof.
  intros Hk. unfold slice_to.
  replace ((0 <=? k) && (k <=? len s)) with true
    by (symmetry; apply andb_true_iff; split; apply Z.leb_le; lia).
  eexists. split; [ reflexivity | ]. split.
  - unfold len in *. rewrite length_take; lia.
  - apply take_prefix.
Qed.

End StringFacts.

(** ** Summary cells *)

(** Both [truncate] functions, at any width above three that an [int]
    holds: the value itself when it fits, otherwise its first [w-3] bytes
    followed by three dots, [w] bytes in all. *)
Lemma truncate_wide (s : string) (w : Z) :
  3 < w < 2 ^ 63 →
  if decide (len s <= w)
  then Positional.truncate s w = Some s ∧ Named.truncate s w = Some s
  else ∃ p, Positional.truncate s w = Some (p +:+ "...")
            ∧ Named.truncate s w = Some (p +:+ "...")
            ∧ HasPrefix s p = true ∧ len (p +:+ "...") = w.
Proof.
  intros Hw. unfold Positional.truncate, Named.truncate.
  case_decide as Hlen.
  - rewrite (proj2 (Z.leb_le _ _) Hlen).
    replace (w <? len s) with false by (symmetry; apply Z.ltb_ge; lia).
    split; reflexivity.
  - replace (len s <=? w) with false by (symmetry; apply Z.leb_gt; lia).
    replace (w <=? 3) with false by (symmetry; apply Z.leb_gt; lia).
    replace (w <? len s) with true by (symmetry; apply Z.ltb_lt; lia).
    rewrite wrap_small by lia.
    destruct (slice_to_Some s (w - 3)) as (p & -> & Hp & Hpre); [ lia | ].
    exists p. repeat split; try reflexivity; try assumption.
    rewrite len_app, Hp. change (len "...") with 3. lia.
Qed.

Lemma truncate_total_named (s : string) :
  is_Some (Named.truncate s Named.path_width).
Proof.
  assert (3 < Named.path_width < 2 ^ 63) as Hw by (vm_compute; auto).
  pose proof (truncate_wide s Named.path_width Hw) as H.
  case_decide; [ destruct H as [_ ->] | destruct H as (p & _ & -> & _) ]; eauto.
Qed.

Lemma string_app_assoc (a b c : string) : (a +:+ b) +:+ c = a +:+ b +:+ c.
Proof.
  induction a as [|x a IH]; [ reflexivity | ].
  rewrite !app_String, IH. reflexivity.
Qed.

(** C9 (as amended): every value that the summary code passes to
    [truncate] (the method at width 10, the path and the query at width 50
    in [har-to-hoverfly.go]; the path at width 50 in the second program) is
    rendered as itself when it is no longer than the width, and otherwise as
    a prefix of the value followed by the ellipsis ["..."], the cell being
    no longer than the width (lengths in bytes).  The second program does
    not pass host and method to [truncate]: every row it prints holds the
    host and the method of a table entry whole, each followed by spaces
    only, then the truncated path. *)
Theorem truncate_cell :
  (∀ s w, w ∈ Positional.column_widths →
          truncated_cell s w (Positional.truncate s w))
  ∧ (∀ s, truncated_cell s Named.path_width
            (Named.truncate s Named.path_width))
  ∧ (∀ table row,
       row ∈ Named.summary_rows table →
       ∃ host path method cell n k rest,
         table_lookup table host path method ≠ None
         ∧ Named.truncate path Named.path_width = Some cell
         ∧ row = Some (host +:+ spaces n +:+ " "
                       +:+ method +:+ spaces k +:+ " " +:+ cell +:+ rest)).
Proof.
  assert (∀ s w, 3 < w < 2 ^ 63 →
            truncated_cell s w (Positional.truncate s w)
            ∧ truncated_cell s w (Named.truncate s w)) as Hcell.
  { intros s w Hw. pose proof (truncate_wide s w Hw) as H.
    unfold truncated_cell.
    case_decide as Hlen.
    - destruct H as [-> ->]. split; (split; [ reflexivity | lia ]).
    - destruct H as (p & -> & -> & Hp & Hl).
      split; (split; [ lia | ]); intros _; exists p;
        (split; [ reflexivity | ]); (split; [ exact Hp | lia ]). }
  split; [ | split ].
  - intros s w Hw. apply Hcell. cbv in Hw.
    repeat (apply elem_of_cons in Hw as [-> | Hw]; [ lia | ]).
    inversion Hw.
  - intros s. apply Hcell. vm_compute. auto.
  - intros table row Hrow. unfold Named.summary_rows in Hrow.
    apply list_elem_of_bind in Hrow as ([host paths] & Hrow & Hhost).
    apply list_elem_of_bind in Hrow as ([path methods] & Hrow & Hpath).
    apply list_elem_of_bind in Hrow as ([method b] & Hrow & Hmethod).
    apply list_elem_of_singleton in Hrow as ->.
    apply elem_of_map_to_list in Hhost, Hpath, Hmethod.
    destruct (truncate_total_named path) as [cell Hcut].
    exists host, path, method, cell,
      (Z.to_nat Named.host_width - RuneCountInString host)%nat,
      (Z.to_nat Named.method_width - RuneCountInString method)%nat,
      (spaces (Z.to_nat Named.path_width - RuneCountInString cell) +:+ " "
       +:+ pad_right (Z.to_nat Named.query_width) "" +:+ String "010" "").
    split; [ | split; [ exact Hcut | ] ].
    + unfold table_lookup. rewrite Hhost. cbn [mbind option_bind].
      rewrite Hpath. cbn [mbind option_bind]. rewrite Hmethod. discriminate.
    + rewrite Hcut. cbn [fmap option_fmap option_map]. f_equal.
      unfold Named.Sprintf_row, pad_right.
      rewrite !string_app_assoc. reflexivity.
Qed.

Lemma truncate_cell_witness :
  Positional.method_width ∈ Positional.column_widths
  ∧ Positional.method_width < len "PROPPATCHING"
  ∧ ∃ p, Positional.truncate "PROPPATCHING" Positional.method_width
           = Some (p +:+ "...")
         ∧ HasPrefix "PROPPATCHING" p = true
         ∧ len (p +:+ "...") <= Positional.method_width.
Proof.
  split; [ apply list_elem_of_here | ].
  split; [ vm_compute; reflexivity | ].
  apply (proj1 truncate_cell "PROPPATCHING" Positional.method_width).
  - apply list_elem_of_here.
  - vm_compute. reflexivity.
Defined.

(** C9, the claim as stated fails: the summary of the second program gives
    the method ten columns and prints a twelve-byte method whole, with no
    ellipsis. *)
Lemma truncate_cell_counterexample :
  Named.method_width < len "PROPPATCHING"
  ∧ Named.main Parse Samples.named_summarise [Samples.named_long_method]
    = Named.Summary
        [Some (pad_right 30 "api.example.com" +:+ " " +:+ "PROPPATCHING"
               +:+ " " +:+ pad_right 50 "/x" +:+ " " +:+ pad_right 50 ""
               +:+ String "010" "")].
Proof. split; vm_compute; reflexivity. Qed.

(** ** What one iteration of the simulation loops produces *)

Section Iteration.

Variable url_Parse : string → option URL.

(** The fields of the pair that [har-to-hoverfly.go] appends for an entry
    it keeps. *)
Lemma entry_pair_Some (fl : Positional.Flags) (e : Positional.HAR.Entry) (p : Pair) :
  Positional.entry_pair url_Parse fl e = Some p →
  let r := Positional.HAR.Request e in
  let res := Positional.HAR.Response e in
  ∃ u, url_Parse (Positional.HAR.URL r) = Some u
    ∧ (Positional.hostFilter fl = "" ∨ Host u = Positional.hostFilter fl)
    ∧ Method (PRequest p) = [exact (Positional.HAR.Method r)]
    ∧ Destination (PRequest p) = [exact (Host u)]
    ∧ Path (PRequest p) = [exact (UPath u)]
    ∧ Body (PRequest p)
      = (if String.eqb (Positional.HAR.PostData r) "" then None
         else Some [exact (Positional.HAR.PostData r)])
    ∧ Headers (PRequest p) = Positional.reqHeaders (Positional.HAR.Headers r)
    ∧ Query (PRequest p) = Positional.reqQuery u
    ∧ Status (PResponse p) = Positional.HAR.Status res
    ∧ RBody (PResponse p)
      = Positional.responseBody fl
          (Positional.respHeaders (Positional.HAR.RespHeaders res)).1
          (Positional.HAR.Content res)
    ∧ RHeaders (PResponse p)
      = (Positional.respHeaders (Positional.HAR.RespHeaders res)).2
    ∧ Labels p = [].
Proof.
  intros H. cbv zeta. unfold Positional.entry_pair in H.
  destruct (url_Parse _) as [u|]; [ | discriminate ].
  exists u. split; [ reflexivity | ].
  destruct (negb (String.eqb (Positional.hostFilter fl) "")
            && negb (String.eqb (Host u) (Positional.hostFilter fl)))
    eqn:Hhost; [ discriminate | ].
  split.
  { apply andb_false_iff in Hhost as [Hh | Hh];
      apply negb_false_iff, String.eqb_eq in Hh; auto. }
  destruct (Positional.respHeaders _) as [contentType headersMap].
  destruct (String.eqb (Positional.HAR.PostData _) "");
    injection H as <-; cbn; repeat split; reflexivity.
Qed.

(** An entry is kept exactly when its URL parses and passes the host
    filter. *)
Lemma entry_pair_None (fl : Positional.Flags) (e : Positional.HAR.Entry) :
  Positional.entry_pair url_Parse fl e = None ↔
  match url_Parse (Positional.HAR.URL (Positional.HAR.Request e)) with
  | None => True
  | Some u => Positional.hostFilter fl ≠ "" ∧ Host u ≠ Positional.hostFilter fl
  end.
Proof.
  unfold Positional.entry_pair.
  destruct (url_Parse _) as [u|]; [ | tauto ].
  destruct (String.eqb_spec (Positional.hostFilter fl) "") as [Hf | Hf];
    destruct (String.eqb_spec (Host u) (Positional.hostFilter fl)) as [Hh | Hh];
    cbn; try destruct (Positional.respHeaders _); split;
    try discriminate; try tauto; intros; split; auto.
Qed.

(** The document's pairs are the kept entries' pairs, in input order. *)
Lemma simulate_Pairs (fl : Positional.Flags) (es : list Positional.HAR.Entry) :
  Pairs (Positional.simulate url_Parse fl es)
  = omap (Positional.entry_pair url_Parse fl) es.
Proof.
  unfold Positional.simulate. cbn [Pairs].
  enough (∀ acc,
    foldl (λ pairs entry,
             match Positional.entry_pair url_Parse fl entry with
             | Some p => pairs ++ [p]
             | None => pairs
             end) acc es
    = acc ++ omap (Positional.entry_pair url_Parse fl) es) as H by apply (H []).
  induction es as [|e es IH]; intros acc; cbn.
  - symmetry. apply app_nil_r.
  - rewrite IH. destruct (Positional.entry_pair url_Parse fl e).
    + rewrite <- app_assoc. reflexivity.
    + reflexivity.
Qed.

End Iteration.

(** ** Text and non-text content types *)

(** C4 (as amended): a content type is text-like exactly when its
    lower-cased form contains one of the program's default tokens.  In
    [har-to-hoverfly.go] the tokens are "json", "text" and "xml", so that
    every content type containing "text" is text-like; in the program with
    [--allowed-content-types] the default tokens are "json", "xml",
    "text/html" and "text/javascript", which do not include "text" on its
    own. *)
Theorem default_classification (contentType : string) :
  (Positional.isTextContentType contentType = true ↔
     ∃ tok, tok ∈ ["json"; "text"; "xml"]
            ∧ Contains (ToLower contentType) tok = true)
  ∧ (Named.isTextContent contentType (Split "," Named.default_allowedTypes) = true ↔
     ∃ tok, tok ∈ ["json"; "xml"; "text/html"; "text/javascript"]
            ∧ Contains (ToLower contentType) tok = true).
Proof.
  split.
  - unfold Positional.isTextContentType. cbv zeta.
    rewrite !orb_true_iff. split.
    + intros [[H | H] | H]; eexists; (split; [ | exact H ]); set_solver.
    + intros (tok & Hin & H).
      repeat (apply elem_of_cons in Hin as [-> | Hin]; [ tauto | ]).
      inversion Hin.
  - change (Split "," Named.default_allowedTypes)
      with ["json"; "xml"; "text/html"; "text/javascript"].
    unfold Named.isTextContent. cbv zeta. cbn [existsb].
    rewrite !orb_true_iff. split.
    + intros [H | [H | [H | [H | H]]]]; [ .. | discriminate ];
        eexists; (split; [ | exact H ]); set_solver.
    + intros (tok & Hin & H).
      repeat (apply elem_of_cons in Hin as [-> | Hin]; [ tauto | ]).
      inversion Hin.
Qed.

(** C4, the claim as stated fails: under the defaults of the program with
    [--allowed-content-types], "text/plain" contains "text" and is
    classified non-text. *)
Lemma default_classification_counterexample :
  Contains (ToLower "text/plain") "text" = true
  ∧ Named.isTextContent "text/plain" (Split "," Named.default_allowedTypes)
    = false.
Proof. split; reflexivity. Qed.

(** The response-header loop leaves [contentType] as it was when no header
    is named [content-type] in any capitalisation. *)
Lemma respHeaders_no_content_type (hs : list Positional.HAR.NameValue) :
  Forall (λ h, ToLower (Positional.HAR.Name h) ≠ "content-type") hs →
  (Positional.respHeaders hs).1 = "".
Proof.
  unfold Positional.respHeaders. intros Hall.
  enough (∀ (ct : string) (m : Header),
    (foldl (λ '(contentType, headersMap) h,
              (if String.eqb (ToLower (Positional.HAR.Name h)) "content-type"
               then Positional.HAR.Value h else contentType,
               append_at (Positional.HAR.Name h) (Positional.HAR.Value h)
                 headersMap))
           (ct, m) hs).1 = ct) as H by apply H.
  induction Hall as [|h hs Hh _ IH]; intros ct m; [ reflexivity | ].
  cbn [foldl].
  destruct (String.eqb_spec (ToLower (Positional.HAR.Name h)) "content-type")
    as [Heq | _]; [ contradiction | ].
  apply IH.
Qed.

(** ** The response body *)

Section ResponseBody.

Variable url_Parse : string → option URL.

(** C1 (as amended): when the response body is longer than the configured
    limit, [har-to-hoverfly.go] emits the empty string unless
    [--skip-non-text] is set and the response is non-text, in which case the
    later substitution overwrites the emptied body with the sentinel; the
    builder [convertEntryToPair], which has no substitution, emits the empty
    string. *)
Theorem oversized_body :
  (∀ fl e p,
     Positional.entry_pair url_Parse fl e = Some p →
     0 <= Positional.maxResponseSize fl →
     Positional.maxResponseSize fl
       < len (Positional.HAR.Content (Positional.HAR.Response e)) →
     RBody (PResponse p)
     = if Positional.skipNonText fl
          && negb (Positional.isTextContentType
                     (Positional.respHeaders
                        (Positional.HAR.RespHeaders
                           (Positional.HAR.Response e))).1)
       then "NON_TEXT_RESPONSE_SKIPPED" else "")
  ∧ (∀ e sizeLimit allowed,
       0 < sizeLimit →
       sizeLimit < len (Named.HAR.Text (Named.HAR.Response e)) →
       RBody (PResponse (Named.convertEntryToPair url_Parse e sizeLimit allowed))
       = "").
Proof.
  split.
  - intros fl e p Hp Hmax Hlen.
    apply entry_pair_Some in Hp as (u & _ & _ & _ & _ & _ & _ & _ & _ & _ & -> & _).
    unfold Positional.responseBody.
    rewrite (proj2 (Z.leb_le _ _) Hmax), (proj2 (Z.ltb_lt _ _) Hlen).
    reflexivity.
  - intros e sizeLimit allowed Hpos Hlen.
    unfold Named.convertEntryToPair. cbn.
    rewrite (proj2 (Z.ltb_lt _ _) Hpos), (proj2 (Z.ltb_lt _ _) Hlen).
    reflexivity.
Qed.

(** C2 (as amended): [convertEntryToPair] labels its pair with the request
    method alone; the pairs that [har-to-hoverfly.go] builds carry the empty
    label list. *)
Theorem pair_labels :
  (∀ e sizeLimit allowed,
     Labels (Named.convertEntryToPair url_Parse e sizeLimit allowed)
     = [Named.HAR.Method (Named.HAR.Request e)])
  ∧ (∀ fl e p, Positional.entry_pair url_Parse fl e = Some p → Labels p = []).
Proof.
  split; [ reflexivity | ].
  intros fl e p Hp.
  apply entry_pair_Some in Hp as (u & _ & _ & _ & _ & _ & _ & _ & _ & _ & _ & _ & H).
  exact H.
Qed.

(** C7: in [har-to-hoverfly.go], a kept entry with non-empty post-data text
    gets a request body of exactly one exact matcher holding that text; with
    empty post-data text the body field stays [nil], and the JSON encoding
    of the request has no ["body"] key. *)
Theorem request_body (fl : Positional.Flags) (e : Positional.HAR.Entry) (p : Pair) :
  Positional.entry_pair url_Parse fl e = Some p →
  let text := Positional.HAR.PostData (Positional.HAR.Request e) in
  (text ≠ "" →
     Body (PRequest p) = Some [{| Matcher := "exact"; Value := text |}])
  ∧ (text = "" →
     Body (PRequest p) = None ∧ "body" ∉ request_json_keys (PRequest p)).
Proof.
  intros Hp. cbv zeta.
  apply entry_pair_Some in Hp as (u & _ & _ & _ & _ & _ & HB & _).
  split; intros Htext.
  - rewrite HB. apply String.eqb_neq in Htext. rewrite Htext. reflexivity.
  - rewrite Htext in HB. cbn in HB. split; [ exact HB | ].
    unfold request_json_keys. rewrite HB.
    repeat case_decide; cbn; intros Hin;
      repeat (apply elem_of_cons in Hin as [Hin | Hin]; [ discriminate | ]);
      inversion Hin.
Qed.

(** C10: in [har-to-hoverfly.go], a kept entry whose response has no header
    named [content-type] (in any capitalisation) is classified with the
    empty content type, which is non-text, so with [--skip-non-text] its
    emitted body is the sentinel, whatever the body was and whether or not
    the size check fired; in the other program an empty MIME type is
    non-text under the default tokens. *)
Theorem missing_content_type :
  Positional.isTextContentType "" = false
  ∧ (∀ fl e p,
       Positional.entry_pair url_Parse fl e = Some p →
       Forall (λ h, ToLower (Positional.HAR.Name h) ≠ "content-type")
         (Positional.HAR.RespHeaders (Positional.HAR.Response e)) →
       Positional.skipNonText fl = true →
       RBody (PResponse p) = "NON_TEXT_RESPONSE_SKIPPED")
  ∧ Named.isTextContent "" (Split "," Named.default_allowedTypes) = false.
Proof.
  split; [ reflexivity | ]. split; [ | reflexivity ].
  intros fl e p Hp Hnone Hskip.
  apply entry_pair_Some in Hp as (u & _ & _ & _ & _ & _ & _ & _ & _ & _ & -> & _).
  rewrite (respHeaders_no_content_type _ Hnone).
  unfold Positional.responseBody. rewrite Hskip. reflexivity.
Qed.

End ResponseBody.

(** *** The response body and the labels on the sample entries *)

Lemma oversized_body_witness :
  0 <= Positional.maxResponseSize Samples.limit1_skip
  ∧ Positional.maxResponseSize Samples.limit1_skip
    < len (Positional.HAR.Content (Positional.HAR.Response Samples.plain_entry))
  ∧ ∃ p, Positional.entry_pair Parse Samples.limit1_skip Samples.plain_entry
         = Some p
         ∧ RBody (PResponse p) = "".
Proof.
  split; [ vm_compute; discriminate | ].
  split; [ vm_compute; reflexivity | ].
  eexists. split; [ vm_compute; reflexivity | ].
  apply (proj1 (oversized_body Parse) Samples.limit1_skip Samples.plain_entry).
  - vm_compute. reflexivity.
  - vm_compute. discriminate.
  - vm_compute. reflexivity.
Defined.

(** C1, the claim as stated fails: with [--max-response-bytes 1] and
    [--skip-non-text], the two-byte body of an [image/png] response is over
    the limit, and the emitted body is the sentinel, not the empty string. *)
Lemma oversized_body_counterexample :
  0 <= Positional.maxResponseSize Samples.limit1_skip
  ∧ Positional.skipNonText Samples.limit1_skip = true
  ∧ Positional.maxResponseSize Samples.limit1_skip
    < len (Positional.HAR.Content (Positional.HAR.Response Samples.png_entry))
  ∧ (λ p, RBody (PResponse p))
      <$> Positional.entry_pair Parse Samples.limit1_skip Samples.png_entry
    = Some "NON_TEXT_RESPONSE_SKIPPED"
  ∧ "NON_TEXT_RESPONSE_SKIPPED" ≠ "".
Proof.
  split; [ vm_compute; discriminate | ].
  split; [ reflexivity | ].
  split; [ vm_compute; reflexivity | ].
  split; [ vm_compute; reflexivity | discriminate ].
Qed.

Lemma pair_labels_witness :
  Labels (Named.convertEntryToPair Parse Samples.named_plain 0
            (Split "," Named.default_allowedTypes))
  = ["GET"]
  ∧ ∃ p, Positional.entry_pair Parse Samples.no_flags Samples.plain_entry
         = Some p
         ∧ Labels p = [].
Proof.
  split; [ apply (proj1 (pair_labels Parse)) | ].
  eexists. split; [ vm_compute; reflexivity | ].
  apply (proj2 (pair_labels Parse) Samples.no_flags Samples.plain_entry).
  vm_compute. reflexivity.
Defined.

(** C2, the claim as stated fails: the pair that [har-to-hoverfly.go]
    builds for a [GET] request has no label. *)
Lemma pair_labels_counterexample :
  Positional.HAR.Method (Positional.HAR.Request Samples.plain_entry) = "GET"
  ∧ Labels <$> Positional.entry_pair Parse Samples.no_flags Samples.plain_entry
    = Some []
  ∧ ([] : list string) ≠ ["GET"].
Proof.
  split; [ reflexivity | ].
  split; [ vm_compute; reflexivity | discriminate ].
Qed.

Lemma request_body_witness :
  ∃ p, Positional.entry_pair Parse Samples.no_flags Samples.bare_entry = Some p
       ∧ Body (PRequest p) = Some [{| Matcher := "exact"; Value := "{}" |}].
Proof.
  eexists. split; [ vm_compute; reflexivity | ].
  apply (request_body Parse Samples.no_flags Samples.bare_entry).
  - vm_compute. reflexivity.
  - discriminate.
Defined.

Lemma missing_content_type_witness :
  Forall (λ h, ToLower (Positional.HAR.Name h) ≠ "content-type")
    (Positional.HAR.RespHeaders (Positional.HAR.Response Samples.bare_entry))
  ∧ ∃ p, Positional.entry_pair Parse Samples.skip_only Samples.bare_entry
         = Some p
         ∧ RBody (PResponse p) = "NON_TEXT_RESPONSE_SKIPPED".
Proof.
  assert (Forall (λ h, ToLower (Positional.HAR.Name h) ≠ "content-type")
            (Positional.HAR.RespHeaders
               (Positional.HAR.Response Samples.bare_entry))) as Hnone.
  { repeat constructor. discriminate. }
  split; [ exact Hnone | ].
  eexists. split; [ vm_compute; reflexivity | ].
  apply (proj1 (proj2 (missing_content_type Parse))
           Samples.skip_only Samples.bare_entry).
  - vm_compute. reflexivity.
  - exact Hnone.
  - reflexivity.
Defined.

(** ** Maps filled by [append] *)

Section AppendAt.

Context {V : Type}.

Lemma append_at_lookup (k k' : string) (v : V) (m : gmap string (list V)) :
  append_at k v m !! k'
  = if decide (k = k') then Some (default [] (m !! k) ++ [v]) else m !! k'.
Proof. unfold append_at. apply lookup_insert. Qed.

(** A loop that appends [val a] under [key a] for each [a] of a list leaves
    under every key what was there, followed by the values the list holds
    for that key, in the order of the list. *)
Lemma foldl_append_at {A} (f : gmap string (list V) → A → gmap string (list V))
    (key : A → string) (val : A → V) :
  (∀ m a, f m a = append_at (key a) (val a) m) →
  ∀ (l : list A) (m0 : gmap string (list V)) (k : string),
    foldl f m0 l !! k
    = match values_at k ((λ a, (key a, val a)) <$> l) with
      | [] => m0 !! k
      | vs => Some (default [] (m0 !! k) ++ vs)
      end.
Proof.
  intros Hf. induction l as [|a l IH]; intros m0 k; [ reflexivity | ].
  cbn [foldl]. rewrite IH, Hf, append_at_lookup.
  unfold values_at. rewrite fmap_cons, filter_cons. cbn [fst].
  case_decide as Hk.
  - subst k. rewrite fmap_cons. cbn [snd default].
    destruct (snd <$> filter _ _) as [|v vs]; [ reflexivity | ].
    unfold id. rewrite <- app_assoc. reflexivity.
  - reflexivity.
Qed.

Lemma foldl_append_at_empty {A} (f : gmap string (list V) → A → gmap string (list V))
    (key : A → string) (val : A → V) (l : list A) (k : string) :
  (∀ m a, f m a = append_at (key a) (val a) m) →
  foldl f ∅ l !! k = grouped (values_at k ((λ a, (key a, val a)) <$> l)).
Proof.
  intros Hf. rewrite (foldl_append_at f key val Hf), lookup_empty.
  destruct (values_at _ _); reflexivity.
Qed.

Lemma values_at_app (k : string) (l1 l2 : list (string * V)) :
  values_at k (l1 ++ l2) = values_at k l1 ++ values_at k l2.
Proof. unfold values_at. rewrite filter_app, fmap_app. reflexivity. Qed.

(** In a list without repeated keys, a key has the values of its entry. *)
Lemma values_at_NoDup (k : string) (v : V) (l : list (string * V)) :
  NoDup l.*1 → (k, v) ∈ l → values_at k l = [v].
Proof.
  unfold values_at. induction l as [|[k' v'] l IH]; intros Hnd Hin.
  - inversion Hin.
  - rewrite fmap_cons in Hnd. apply NoDup_cons in Hnd as [Hk' Hnd].
    rewrite filter_cons. cbn [fst]. apply elem_of_cons in Hin as [Heq | Hin].
    + injection Heq as <- <-. rewrite decide_True by reflexivity.
      rewrite fmap_cons. cbn [snd]. f_equal.
      destruct (filter _ l) as [|[k2 v2] l'] eqn:Hf; [ reflexivity | ].
      assert ((k2, v2) ∈ filter (λ kv : string * V, kv.1 = k) l) as Hin2
        by (rewrite Hf; left).
      apply list_elem_of_filter in Hin2 as [Hk2 Hin2]. cbn in Hk2. subst k2.
      exfalso. apply Hk'. apply list_elem_of_fmap. exists (k, v2). auto.
    + rewrite decide_False.
      * apply IH; assumption.
      * intros <-. apply Hk'. apply list_elem_of_fmap. exists (k', v). auto.
Qed.

Lemma values_at_absent (k : string) (l : list (string * V)) :
  k ∉ l.*1 → values_at k l = [].
Proof.
  unfold values_at. induction l as [|[k' v'] l IH]; intros Hk; [ reflexivity | ].
  rewrite fmap_cons, not_elem_of_cons in Hk. destruct Hk as [Hne Hk].
  cbn [fst] in Hne.
  rewrite filter_cons, decide_False by (cbn [fst]; congruence). apply IH, Hk.
Qed.

End AppendAt.

Lemma values_at_fmap {V W} (g : V → W) (k : string) (l : list (string * V)) :
  values_at k (prod_map id g <$> l) = g <$> values_at k l.
Proof.
  unfold values_at. induction l as [|[k' v] l IH]; [ reflexivity | ].
  rewrite fmap_cons, !filter_cons. cbn [prod_map fst id].
  case_decide; [ rewrite !fmap_cons, IH | rewrite IH ]; reflexivity.
Qed.

Lemma grouped_fmap {V W} (g : V → W) (vs : list V) :
  grouped (g <$> vs) = (λ l : list V, g <$> l) <$> grouped vs.
Proof. destruct vs; reflexivity. Qed.

(** ** The header and query maps of [har-to-hoverfly.go] *)

Lemma reqHeaders_lookup (hs : list Positional.HAR.NameValue) (name : string) :
  Positional.reqHeaders hs !! name
  = grouped (exact <$> values_at name (header_pairs hs)).
Proof.
  unfold Positional.reqHeaders.
  rewrite (foldl_append_at_empty _ Positional.HAR.Name
             (λ h, exact (Positional.HAR.Value h))) by reflexivity.
  unfold header_pairs. rewrite <- values_at_fmap, <- list_fmap_compose.
  reflexivity.
Qed.

Lemma URL_Query_lookup (u : URL) (k : string) :
  Positional.URL_Query u !! k = grouped (values_at k (ParseQuery (RawQuery u))).
Proof.
  unfold Positional.URL_Query.
  rewrite (foldl_append_at_empty _ fst snd) by (intros m [k' v]; reflexivity).
  rewrite (list_fmap_ext _ id (ParseQuery (RawQuery u)))
    by (intros i [k' v] _; reflexivity).
  rewrite list_fmap_id. reflexivity.
Qed.

Lemma reqQuery_of_flat (kvs : list (string * list string)) :
  Positional.reqQuery_of kvs
  = foldl (λ m kv, append_at kv.1 (exact kv.2) m) ∅ (flat_values kvs).
Proof.
  unfold Positional.reqQuery_of, flat_values.
  generalize (∅ : gmap string (list FieldMatcher)).
  induction kvs as [|[key values] kvs IH]; intros m; [ reflexivity | ].
  rewrite bind_cons, foldl_app. cbn [foldl]. rewrite IH. f_equal.
  rewrite foldl_fmap. reflexivity.
Qed.

Lemma values_at_flat (k : string) (kvs : list (string * list string)) :
  values_at k (flat_values kvs) = mjoin (values_at k kvs).
Proof.
  unfold flat_values. induction kvs as [|[key values] kvs IH]; [ reflexivity | ].
  rewrite bind_cons, values_at_app, IH. unfold values_at at 1 3.
  rewrite filter_cons. cbn [fst]. case_decide as Hk.
  - subst key. rewrite fmap_cons. cbn [snd mjoin list_join]. f_equal.
    induction values as [|v values IHv]; [ reflexivity | ].
    rewrite fmap_cons, filter_cons_True, fmap_cons by reflexivity.
    cbn [snd]. f_equal. exact IHv.
  - cbn [app]. replace (filter _ _) with ([] : list (string * string));
      [ reflexivity | ].
    induction values as [|v values IHv]; [ reflexivity | ].
    rewrite fmap_cons, filter_cons_False by (cbn [fst]; congruence).
    exact IHv.
Qed.

(** Whatever the order [kvs] in which the [Values] map is enumerated, the
    query loops put under each key the exact matchers of the values the map
    holds for it. *)
Lemma reqQuery_of_lookup (M : gmap string (list string))
    (kvs : list (string * list string)) (k : string) :
  kvs ≡ₚ map_to_list M →
  Positional.reqQuery_of kvs !! k = grouped (exact <$> default [] (M !! k)).
Proof.
  intros Hperm. rewrite reqQuery_of_flat.
  rewrite (foldl_append_at_empty _ fst (λ kv, exact kv.2)) by reflexivity.
  rewrite (list_fmap_ext _ (prod_map id exact) (flat_values kvs))
    by (intros i [k' v] _; reflexivity).
  rewrite values_at_fmap, values_at_flat. f_equal. f_equal.
  assert (NoDup kvs.*1) as Hnd
    by (rewrite Hperm; apply NoDup_fst_map_to_list).
  destruct (M !! k) as [vs|] eqn:HM.
  - rewrite (values_at_NoDup k vs); [ apply app_nil_r | exact Hnd | ].
    rewrite Hperm. apply elem_of_map_to_list, HM.
  - rewrite values_at_absent; [ reflexivity | ].
    intros Hin. apply list_elem_of_fmap in Hin as ([k' vs] & -> & Hin).
    rewrite Hperm in Hin. apply elem_of_map_to_list in Hin.
    cbn [fst] in HM. congruence.
Qed.

Lemma reqQuery_lookup (u : URL) (k : string) :
  Positional.reqQuery u !! k
  = grouped (exact <$> values_at k (ParseQuery (RawQuery u))).
Proof.
  unfold Positional.reqQuery.
  rewrite (reqQuery_of_lookup (Positional.URL_Query u)) by reflexivity.
  rewrite URL_Query_lookup. destruct (values_at _ _); reflexivity.
Qed.

Section MultiValued.

Variable url_Parse : string → option URL.

(** C8: in the pair that [har-to-hoverfly.go] builds for a kept entry, the
    header map holds under each header name one exact matcher for each value
    the request headers give that name, in the order of the header list, and
    the query map holds under each key one exact matcher for each value that
    the query string gives that key, in the order of the query string; a
    name or key without a value has no entry.  The order in which Go
    enumerates the parsed query map does not change the query map. *)
Theorem multi_valued_fields (fl : Positional.Flags) (e : Positional.HAR.Entry)
    (p : Pair) :
  Positional.entry_pair url_Parse fl e = Some p →
  ∃ u, url_Parse (Positional.HAR.URL (Positional.HAR.Request e)) = Some u
    ∧ (∀ name,
         Headers (PRequest p) !! name
         = grouped (exact <$> values_at name
                      (header_pairs
                         (Positional.HAR.Headers (Positional.HAR.Request e)))))
    ∧ (∀ key,
         Query (PRequest p) !! key
         = grouped (exact <$> values_at key (ParseQuery (RawQuery u))))
    ∧ (∀ kvs, kvs ≡ₚ map_to_list (Positional.URL_Query u) →
              Positional.reqQuery_of kvs = Query (PRequest p)).
Proof.
  intros Hp.
  apply entry_pair_Some in Hp as (u & Hu & _ & _ & _ & _ & _ & HH & HQ & _).
  exists u. split; [ exact Hu | ]. rewrite HH, HQ. split; [ | split ].
  - intros name. apply reqHeaders_lookup.
  - intros key. apply reqQuery_lookup.
  - intros kvs Hperm. apply map_eq. intros k.
    rewrite (reqQuery_of_lookup (Positional.URL_Query u)) by exact Hperm.
    unfold Positional.reqQuery.
    rewrite (reqQuery_of_lookup (Positional.URL_Query u)); reflexivity.
Qed.

End MultiValued.

Lemma multi_valued_fields_witness :
  ∃ p, Positional.entry_pair Parse Samples.no_flags Samples.plain_entry = Some p
       ∧ Headers (PRequest p) !! "Accept"
         = Some [exact "text/html"; exact "application/json"]
       ∧ Query (PRequest p) !! "category" = Some [exact "shoes"; exact "boots"]
       ∧ Query (PRequest p) !! "limit" = Some [exact "5"].
Proof.
  eexists. split; [ vm_compute; reflexivity | ].
  destruct (multi_valued_fields Parse Samples.no_flags Samples.plain_entry _
              eq_refl) as (u & Hu & HH & HQ & _).
  vm_compute in Hu. injection Hu as <-.
  split; [ | split ].
  - etransitivity; [ apply HH | reflexivity ].
  - etransitivity; [ apply HQ | reflexivity ].
  - etransitivity; [ apply HQ | reflexivity ].
Defined.

(** ** Matcher kinds *)

Lemma matchers_of_map_exact (M : gmap string (list FieldMatcher))
    (m : FieldMatcher) :
  (∀ k, ∃ vs : list string, M !! k = grouped (exact <$> vs)) →
  m ∈ mjoin (snd <$> map_to_list M) → Matcher m = "exact".
Proof.
  intros HM Hm.
  apply list_elem_of_join in Hm as (l & Hm & Hl).
  apply list_elem_of_fmap in Hl as ([k l'] & -> & Hl).
  apply elem_of_map_to_list in Hl. destruct (HM k) as [vs Hvs].
  rewrite Hvs in Hl. destruct vs as [|v vs]; [ discriminate | ].
  injection Hl as <-. cbn [snd] in Hm.
  change (m ∈ exact <$> v :: vs) in Hm.
  apply list_elem_of_fmap in Hm as (x & -> & _). reflexivity.
Qed.

Section Documents.

Variable url_Parse : string → option URL.

Lemma entry_pair_exact (fl : Positional.Flags) (e : Positional.HAR.Entry)
    (p : Pair) (m : FieldMatcher) :
  Positional.entry_pair url_Parse fl e = Some p →
  m ∈ request_matchers (PRequest p) → Matcher m = "exact".
Proof.
  intros Hp.
  apply entry_pair_Some in Hp
    as (u & _ & _ & HM & HD & HP & HB & HH & HQ & _).
  unfold request_matchers. rewrite HM, HD, HP, HB, HH, HQ, !elem_of_app.
  intros [Hm | [Hm | [Hm | [Hm | [Hm | Hm]]]]].
  - apply list_elem_of_singleton in Hm as ->. reflexivity.
  - apply list_elem_of_singleton in Hm as ->. reflexivity.
  - apply list_elem_of_singleton in Hm as ->. reflexivity.
  - destruct (String.eqb _ ""); cbn [default] in Hm; [ inversion Hm | ].
    apply list_elem_of_singleton in Hm as ->. reflexivity.
  - apply (matchers_of_map_exact _ _ (λ k, ex_intro _ _ (reqHeaders_lookup _ k)) Hm).
  - apply (matchers_of_map_exact _ _ (λ k, ex_intro _ _ (reqQuery_lookup _ k)) Hm).
Qed.

Lemma convertEntryToPair_exact (e : Named.HAR.Entry) (sizeLimit : Z)
    (allowed : list string) (m : FieldMatcher) :
  m ∈ request_matchers
        (PRequest (Named.convertEntryToPair url_Parse e sizeLimit allowed)) →
  Matcher m = "exact".
Proof.
  unfold request_matchers, Named.convertEntryToPair.
  cbn [PRequest Method Destination Path Body Headers Query default].
  rewrite map_to_list_empty. cbn [fmap list_fmap mjoin list_join app].
  intros Hm.
  repeat (apply elem_of_cons in Hm as [-> | Hm]; [ reflexivity | ]).
  inversion Hm.
Qed.

(** Every pair of the second program's run was built by
    [convertEntryToPair] from an entry of the input. *)
Lemma run_pairs (fl : Named.Flags) (es : list Named.HAR.Entry) (p : Pair) :
  p ∈ (Named.run url_Parse fl es).1 →
  ∃ e, e ∈ es
       ∧ p = Named.convertEntryToPair url_Parse e (Named.sizeLimit fl)
               (Split "," (Named.allowedTypes fl)).
Proof.
  unfold Named.run.
  enough (∀ st,
    p ∈ (foldl (Named.process_entry url_Parse fl
                  (Split "," (Named.allowedTypes fl))) st es).1 →
    p ∈ st.1
    ∨ ∃ e, e ∈ es
           ∧ p = Named.convertEntryToPair url_Parse e (Named.sizeLimit fl)
                   (Split "," (Named.allowedTypes fl))) as H.
  { intros Hp. destruct (H _ Hp) as [Hnil | He]; [ inversion Hnil | exact He ]. }
  induction es as [|e es IH]; intros st Hp; [ left; exact Hp | ].
  cbn [foldl] in Hp. apply IH in Hp as [Hp | (e' & He' & ->)].
  - destruct st as [pairs table]. unfold Named.process_entry in Hp.
    repeat match type of Hp with
           | context [if ?b then _ else _] => destruct b
           end; cbn [fst] in Hp; try (left; exact Hp).
    apply elem_of_app in Hp as [Hp | Hp]; [ left; exact Hp | ].
    apply list_elem_of_singleton in Hp as ->.
    right. exists e. split; [ left | reflexivity ].
  - right. exists e'. split; [ right; exact He' | reflexivity ].
Qed.

(** C6: in the document of either program, every request matcher of every
    pair (method, destination, path, body, each header value and each query
    value) has the kind "exact". *)
Theorem all_matchers_exact :
  (∀ fl es sim p m,
     Positional.main url_Parse fl es = Some (Positional.Document sim) →
     p ∈ Pairs sim → m ∈ request_matchers (PRequest p) → Matcher m = "exact")
  ∧ (∀ fl es sim p m,
       Named.main url_Parse fl es = Named.Document sim →
       p ∈ Pairs sim → m ∈ request_matchers (PRequest p) → Matcher m = "exact").
Proof.
  split.
  - intros fl es sim p m Hmain Hp Hm. unfold Positional.main in Hmain.
    destruct (Positional.summarise fl).
    + destruct (loop _ _ _); discriminate.
    + injection Hmain as <-. rewrite simulate_Pairs in Hp.
      apply list_elem_of_omap in Hp as (e & _ & He).
      exact (entry_pair_exact fl e p m He Hm).
  - intros fl es sim p m Hmain Hp Hm. unfold Named.main in Hmain.
    destruct (Named.run url_Parse fl es) as [pairs table] eqn:Hrun.
    destruct (Named.summarise fl); [ discriminate | ].
    injection Hmain as <-. cbn [Pairs] in Hp.
    assert (p ∈ (Named.run url_Parse fl es).1) as Hp'
      by (rewrite Hrun; exact Hp).
    apply run_pairs in Hp' as (e & _ & ->).
    exact (convertEntryToPair_exact _ _ _ m Hm).
Qed.

End Documents.

Lemma all_matchers_exact_witness :
  ∃ sim p,
    Positional.main Parse Samples.no_flags [Samples.plain_entry; Samples.bare_entry]
    = Some (Positional.Document sim)
    ∧ p ∈ Pairs sim
    ∧ exact "shoes" ∈ request_matchers (PRequest p)
    ∧ Forall (λ m, Matcher m = "exact") (request_matchers (PRequest p)).
Proof.
  eexists _, _. split; [ vm_compute; reflexivity | ].
  split; [ apply list_elem_of_here | ].
  split.
  { vm_compute.
    repeat first [ apply list_elem_of_here | apply list_elem_of_further ]. }
  apply Forall_forall. intros m Hm.
  exact (proj1 (all_matchers_exact Parse) Samples.no_flags
           [Samples.plain_entry; Samples.bare_entry] _ _ m eq_refl
           (list_elem_of_here _ _) Hm).
Defined.

(** ** Entries whose URL does not parse *)

Lemma loop_app {St En} (body : St → En → option St) (st : St) (l1 l2 : list En) :
  loop body st (l1 ++ l2) = loop body st l1 ≫= λ st', loop body st' l2.
Proof.
  revert st. induction l1 as [|e l1 IH]; intros st; [ reflexivity | ].
  cbn [app loop]. destruct (body st e) as [st'|]; [ apply IH | reflexivity ].
Qed.

Lemma truncate_total (s : string) (w : Z) :
  3 < w < 2 ^ 63 → is_Some (Positional.truncate s w).
Proof.
  intros Hw. pose proof (truncate_wide s w Hw) as H.
  case_decide; [ destruct H as [-> _] | destruct H as (p & -> & _) ]; eauto.
Qed.

Section Unparseable.

Variable url_Parse : string → option URL.

Lemma simulate_omap (fl : Positional.Flags) (es : list Positional.HAR.Entry) :
  Positional.simulate url_Parse fl es
  = {| Pairs := omap (Positional.entry_pair url_Parse fl) es;
       Delays := [];
       SchemaVersion := "v5.3" |}.
Proof.
  unfold Positional.simulate. f_equal. exact (simulate_Pairs url_Parse fl es).
Qed.

(** The summary loop of [har-to-hoverfly.go] never panics: the widths it
    passes to [truncate] are above three. *)
Lemma summary_loop_total (fl : Positional.Flags) (es : list Positional.HAR.Entry)
    (st : gmap string (list string)) :
  is_Some (loop (Positional.summary_entry url_Parse fl) st es).
Proof.
  revert st. induction es as [|e es IH]; intros st; [ eauto | ].
  cbn [loop].
  assert (is_Some (Positional.summary_entry url_Parse fl st e)) as [st' ->];
    [ | apply IH ].
  unfold Positional.summary_entry.
  destruct (url_Parse _) as [u|]; [ | eauto ].
  destruct (_ && _); [ eauto | ].
  destruct (truncate_total (Positional.HAR.Method (Positional.HAR.Request e))
              Positional.method_width) as [? ->]; [ vm_compute; auto | ].
  destruct (truncate_total (UPath u) Positional.path_width) as [? ->];
    [ vm_compute; auto | ].
  destruct (truncate_total (RawQuery u) Positional.query_width) as [? ->];
    [ vm_compute; auto | ].
  cbn. eauto.
Qed.

Lemma main_total (fl : Positional.Flags) (es : list Positional.HAR.Entry) :
  is_Some (Positional.main url_Parse fl es).
Proof.
  unfold Positional.main. destruct (Positional.summarise fl); [ | eauto ].
  destruct (summary_loop_total fl es ∅) as [st ->]. cbn. eauto.
Qed.

End Unparseable.

(** ** The host filter *)

(** In [har-to-hoverfly.go] the filter compares the parsed host: a kept
    entry's destination is the configured host. *)
Lemma host_filter_exact (url_Parse : string → option URL)
    (fl : Positional.Flags) (e : Positional.HAR.Entry) (p : Pair) :
  Positional.entry_pair url_Parse fl e = Some p →
  Positional.hostFilter fl ≠ "" →
  Destination (PRequest p) = [exact (Positional.hostFilter fl)].
Proof.
  intros Hp Hf.
  apply entry_pair_Some in Hp as (u & _ & [Hh | Hh] & _ & -> & _);
    [ contradiction | rewrite Hh; reflexivity ].
Qed.

(** C5, the second program at the failing input: with
    [--host api.example.com], the entry for
    [http://other.com/redirect?to=api.example.com] is kept, because the
    filter searches the raw URL, and the document has a pair whose
    destination is [other.com], a host that does not contain the configured
    one. *)
Lemma host_filter_raw_url :
  Named.restrictHost Samples.named_host = "api.example.com"
  ∧ Host <$> Parse (Named.HAR.URL (Named.HAR.Request Samples.named_redirect))
    = Some "other.com"
  ∧ Contains "other.com" "api.example.com" = false
  ∧ ∃ p, Named.main Parse Samples.named_host [Samples.named_redirect]
         = Named.Document {| Pairs := [p]; Delays := []; SchemaVersion := "v5.3" |}
         ∧ Destination (PRequest p) = [exact "other.com"].
Proof.
  split; [ reflexivity | ]. split; [ reflexivity | ]. split; [ reflexivity | ].
  eexists. split; [ vm_compute; reflexivity | reflexivity ].
Qed.

(** * Further properties of the two programs *)

(** ** [truncate] outside the widths the programs use *)

(** X1: [truncate] of [har-to-hoverfly.go] panics exactly at a negative
    width; at any other width an [int] holds it returns a prefix-based text
    of [min (len s) max] bytes. *)
Theorem positional_truncate_any_width (s : string) (max : Z) :
  max < 2 ^ 63 →
  (Positional.truncate s max = None ↔ max < 0)
  ∧ (∀ r, Positional.truncate s max = Some r → len r = Z.min (len s) max).
Proof.
  intros Hmax. pose proof (len_nonneg s) as Hs. unfold Positional.truncate.
  destruct (Z.leb_spec (len s) max) as [Hfit | Hlong].
  { split; [ split; [ discriminate | lia ] | ].
    intros r [= <-]. lia. }
  destruct (Z.leb_spec max 3) as [Hnarrow | Hwide].
  - unfold slice_to. destruct (Z.leb_spec 0 max) as [Hpos | Hneg].
    + replace (max <=? len s) with true by (symmetry; apply Z.leb_le; lia).
      cbn [andb]. split; [ split; [ discriminate | lia ] | ].
      intros r [= <-]. unfold len in *. rewrite length_take; lia.
    + cbn [andb]. split; [ split; [ lia | reflexivity ] | discriminate ].
  - rewrite wrap_small by lia.
    destruct (slice_to_Some s (max - 3)) as (p & -> & Hp & _); [ lia | ].
    cbn. split; [ split; [ discriminate | lia ] | ].
    intros r [= <-]. rewrite len_app, Hp. change (len "...") with 3. lia.
Qed.

Lemma positional_truncate_any_width_witness :
  Positional.truncate "abcdef" 2 = Some "ab"
  ∧ len "ab" = Z.min (len "abcdef") 2
  ∧ (Positional.truncate "abcdef" (-1) = None ↔ -1 < 0).
Proof.
  pose proof (positional_truncate_any_width "abcdef" 2) as H2.
  pose proof (positional_truncate_any_width "abcdef" (-1)) as Hm.
  split; [ reflexivity | ].
  split; [ apply H2; [ vm_compute | ]; reflexivity | ].
  apply Hm. vm_compute. reflexivity.
Defined.

(** X2: [truncate] of the second program panics exactly when the text is
    longer than a width below three (the slice end [max-3] is then negative
    or, after wrap-around, beyond the text). *)
Theorem named_truncate_panics (s : string) (max : Z) :
  - 2 ^ 63 <= max < 2 ^ 63 → len s < 2 ^ 63 - 3 →
  (Named.truncate s max = None ↔ max < len s ∧ max < 3).
Proof.
  intros Hmax Hlen. pose proof (len_nonneg s) as Hs. unfold Named.truncate.
  destruct (Z.ltb_spec max (len s)) as [Hlong | Hfit].
  2: { split; [ discriminate | lia ]. }
  destruct (Z.le_gt_cases 3 max) as [Hwide | Hnarrow].
  - rewrite wrap_small by lia.
    destruct (slice_to_Some s (max - 3)) as (p & -> & _); [ lia | ].
    cbn. split; [ discriminate | lia ].
  - split; [ lia | intros _ ].
    assert (wrap (max - 3) < 0 ∨ len s < wrap (max - 3)) as Hout.
    { destruct (Z.le_gt_cases (- 2 ^ 63 + 3) max) as [Hin | Hunder].
      - left. rewrite wrap_small; lia.
      - right. unfold wrap.
        rewrite <- (Z.mod_unique (max - 3 + 2 ^ 63) (2 ^ 64) (-1)
                      (max - 3 + 2 ^ 63 + 2 ^ 64)) by lia.
        lia. }
    unfold slice_to.
    replace ((0 <=? wrap (max - 3)) && (wrap (max - 3) <=? len s)) with false;
      [ reflexivity | ].
    symmetry. apply andb_false_iff.
    destruct Hout; [ left; apply Z.leb_gt | right; apply Z.leb_gt ]; lia.
Qed.

Lemma named_truncate_panics_witness :
  Named.truncate "abcdef" 2 = None ∧ Named.truncate "ab" 2 = Some "ab".
Proof.
  split; [ | reflexivity ].
  apply (named_truncate_panics "abcdef" 2);
    [ vm_compute; split; [ discriminate | reflexivity ]
    | vm_compute; reflexivity
    | vm_compute; split; reflexivity ].
Defined.

(** X3: the summary of the second program never panics: every row that
    [summary_rows] renders is there, whatever the table holds. *)
Theorem summary_rows_no_panic (table : Named.Table) :
  Forall is_Some (Named.summary_rows table).
Proof.
  unfold Named.summary_rows. apply Forall_forall. intros row Hrow.
  apply list_elem_of_bind in Hrow as ([host paths] & Hrow & _).
  apply list_elem_of_bind in Hrow as ([path methods] & Hrow & _).
  apply list_elem_of_bind in Hrow as ([method b] & Hrow & _).
  apply list_elem_of_singleton in Hrow as ->.
  assert (3 < Named.path_width < 2 ^ 63) as Hw by (vm_compute; auto).
  pose proof (truncate_wide path Named.path_width Hw) as H.
  case_decide; [ destruct H as [_ ->] | destruct H as (p & _ & -> & _) ];
    cbn; eauto.
Qed.

(** ** The documents as a whole *)

Section WholeDocuments.

Variable url_Parse : string → option URL.

Lemma process_entry_included (fl : Named.Flags) (pairs : list Pair)
    (table : Named.Table) (e : Named.HAR.Entry) :
  Named.process_entry url_Parse fl (Split "," (Named.allowedTypes fl))
    (pairs, table) e
  = if named_included fl e
    then if Named.summarise fl
         then (pairs,
               let '(host, path, method) := entry_triple url_Parse e in
               Named.table_set host path method table)
         else (pairs ++ [Named.convertEntryToPair url_Parse e (Named.sizeLimit fl)
                           (Split "," (Named.allowedTypes fl))],
               table)
    else (pairs, table).
Proof.
  unfold Named.process_entry, named_included, entry_triple.
  destruct (String.eqb (Named.restrictHost fl) "");
    destruct (Contains _ (Named.restrictHost fl));
    destruct (Named.ignoreNonText fl);
    destruct (Named.isTextContent _ _);
    destruct (Named.summarise fl); reflexivity.
Qed.

Lemma run_pairs_filter (fl : Named.Flags) (es : list Named.HAR.Entry) :
  (Named.run url_Parse fl es).1
  = if Named.summarise fl then []
    else (λ e, Named.convertEntryToPair url_Parse e (Named.sizeLimit fl)
                 (Split "," (Named.allowedTypes fl)))
           <$> filter (λ e, named_included fl e = true) es.
Proof.
  unfold Named.run.
  enough (∀ st,
    (foldl (Named.process_entry url_Parse fl
              (Split "," (Named.allowedTypes fl))) st es).1
    = st.1 ++
      (if Named.summarise fl then []
       else (λ e, Named.convertEntryToPair url_Parse e (Named.sizeLimit fl)
                    (Split "," (Named.allowedTypes fl)))
              <$> filter (λ e, named_included fl e = true) es)) as H
    by apply (H ([], ∅)).
  induction es as [|e es IH]; intros [pairs table].
  - cbn. destruct (Named.summarise fl); symmetry; apply app_nil_r.
  - cbn [foldl]. rewrite IH, process_entry_included, filter_cons.
    destruct (named_included fl e); cbn [fst].
    + rewrite decide_True by reflexivity.
      destruct (Named.summarise fl); cbn [fst]; [ reflexivity | ].
      rewrite fmap_cons, <- app_assoc. reflexivity.
    + rewrite decide_False by discriminate. reflexivity.
Qed.

(** X4: without [--summarise], the second program's document holds, in
    input order, the pair of every entry that passes the two tests of the
    loop (the raw URL contains the [--host] text when one is given; the MIME
    type is text-like when [--ignore-non-text] is given), under the schema
    version "v5.3" and an empty delay list. *)
Theorem named_document (fl : Named.Flags) (es : list Named.HAR.Entry) :
  Named.summarise fl = false →
  Named.main url_Parse fl es
  = Named.Document
      {| Pairs :=
           (λ e, Named.convertEntryToPair url_Parse e (Named.sizeLimit fl)
                   (Split "," (Named.allowedTypes fl)))
             <$> filter (λ e, named_included fl e = true) es;
         Delays := [];
         SchemaVersion := "v5.3" |}.
Proof.
  intros Hs. unfold Named.main.
  pose proof (run_pairs_filter fl es) as H.
  destruct (Named.run url_Parse fl es) as [pairs table].
  rewrite Hs in *. cbn [fst] in H. rewrite H. reflexivity.
Qed.

(** X5: the document of a concatenated archive is the concatenation of the
    documents, in both programs: no entry changes what another one
    contributes. *)
Theorem documents_compose :
  (∀ fl es1 es2,
     Pairs (Positional.simulate url_Parse fl (es1 ++ es2))
     = Pairs (Positional.simulate url_Parse fl es1)
       ++ Pairs (Positional.simulate url_Parse fl es2))
  ∧ (∀ fl es1 es2,
       (Named.run url_Parse fl (es1 ++ es2)).1
       = (Named.run url_Parse fl es1).1 ++ (Named.run url_Parse fl es2).1).
Proof.
  split; intros fl es1 es2.
  - rewrite !simulate_Pairs. apply omap_app.
  - rewrite !run_pairs_filter. destruct (Named.summarise fl); [ reflexivity | ].
    rewrite filter_app, fmap_app. reflexivity.
Qed.

(** X6: with [--ignore-non-text], every pair of the second program's
    document carries, as its only [Content-Type] response header, a MIME
    type that is text-like for the configured tokens. *)
Theorem ignore_non_text_document (fl : Named.Flags) (es : list Named.HAR.Entry)
    (p : Pair) :
  Named.ignoreNonText fl = true →
  p ∈ (Named.run url_Parse fl es).1 →
  ∃ mimeType,
    RHeaders (PResponse p) !! "Content-Type" = Some [mimeType]
    ∧ Named.isTextContent mimeType (Split "," (Named.allowedTypes fl)) = true.
Proof.
  intros Hignore Hp. rewrite run_pairs_filter in Hp.
  destruct (Named.summarise fl); [ inversion Hp | ].
  apply list_elem_of_fmap in Hp as (e & -> & He).
  apply list_elem_of_filter in He as [He _].
  exists (Named.HAR.MimeType (Named.HAR.Response e)). split.
  - unfold Named.convertEntryToPair. cbn [PResponse RHeaders].
    apply lookup_singleton_eq.
  - unfold named_included in He. rewrite Hignore in He.
    apply andb_true_iff in He as [_ He]. exact He.
Qed.

(** X7: with a non-empty [--host], every pair of the document of
    [har-to-hoverfly.go] has that host as its destination. *)
Theorem host_filter_document (fl : Positional.Flags)
    (es : list Positional.HAR.Entry) (sim : Simulation) (p : Pair) :
  Positional.hostFilter fl ≠ "" →
  Positional.main url_Parse fl es = Some (Positional.Document sim) →
  p ∈ Pairs sim →
  Destination (PRequest p) = [exact (Positional.hostFilter fl)].
Proof.
  intros Hf Hmain Hp. unfold Positional.main in Hmain.
  destruct (Positional.summarise fl).
  - destruct (loop _ _ _); discriminate.
  - injection Hmain as <-. rewrite simulate_Pairs in Hp.
    apply list_elem_of_omap in Hp as (e & _ & He).
    apply entry_pair_Some in He as (u & _ & [Hh | Hh] & _ & -> & _);
      [ contradiction | rewrite Hh; reflexivity ].
Qed.

(** X8: a response body goes through unchanged when no policy applies to
    it: in [har-to-hoverfly.go] when the limit is negative (the default) or
    not exceeded and the substitution is off or the response is text-like;
    in the second program when the limit is zero (the default), negative or
    not exceeded. *)
Theorem body_passes_through :
  (∀ fl e p,
     Positional.entry_pair url_Parse fl e = Some p →
     Positional.maxResponseSize fl < 0
     ∨ len (Positional.HAR.Content (Positional.HAR.Response e))
       <= Positional.maxResponseSize fl →
     Positional.skipNonText fl = false
     ∨ Positional.isTextContentType
         (Positional.respHeaders
            (Positional.HAR.RespHeaders (Positional.HAR.Response e))).1 = true →
     RBody (PResponse p) = Positional.HAR.Content (Positional.HAR.Response e))
  ∧ (∀ e sizeLimit allowed,
       sizeLimit <= 0 ∨ len (Named.HAR.Text (Named.HAR.Response e)) <= sizeLimit →
       RBody (PResponse (Named.convertEntryToPair url_Parse e sizeLimit allowed))
       = Named.HAR.Text (Named.HAR.Response e)).
Proof.
  split.
  - intros fl e p Hp Hsize Htext.
    apply entry_pair_Some in Hp
      as (u & _ & _ & _ & _ & _ & _ & _ & _ & _ & -> & _).
    unfold Positional.responseBody.
    replace ((0 <=? Positional.maxResponseSize fl)
             && (Positional.maxResponseSize fl
                 <? len (Positional.HAR.Content (Positional.HAR.Response e))))
      with false
      by (symmetry; apply andb_false_iff;
          destruct Hsize; [ left; apply Z.leb_gt | right; apply Z.ltb_ge ]; lia).
    destruct Htext as [-> | ->]; [ reflexivity | ].
    rewrite andb_false_r. reflexivity.
  - intros e sizeLimit allowed Hsize.
    unfold Named.convertEntryToPair. cbn [PResponse RBody].
    replace ((0 <? sizeLimit)
             && (sizeLimit <? len (Named.HAR.Text (Named.HAR.Response e))))
      with false
      by (symmetry; apply andb_false_iff;
          destruct Hsize; [ left | right ]; apply Z.ltb_ge; lia).
    reflexivity.
Qed.

(** X9: [--max-response-bytes 0] is a limit in [har-to-hoverfly.go]: with
    the substitution off, every pair has the empty body (in the second
    program a zero limit means no limit). *)
Theorem zero_limit_empties (fl : Positional.Flags) (e : Positional.HAR.Entry)
    (p : Pair) :
  Positional.entry_pair url_Parse fl e = Some p →
  Positional.maxResponseSize fl = 0 →
  Positional.skipNonText fl = false →
  RBody (PResponse p) = "".
Proof.
  intros Hp Hmax Hskip.
  apply entry_pair_Some in Hp
    as (u & _ & _ & _ & _ & _ & _ & _ & _ & _ & -> & _).
  unfold Positional.responseBody. rewrite Hmax, Hskip. cbn [andb Z.leb Z.compare].
  destruct (Positional.HAR.Content (Positional.HAR.Response e)); reflexivity.
Qed.

End WholeDocuments.

(** ** Response headers of [har-to-hoverfly.go] *)

Lemma respHeaders_fold (hs : list Positional.HAR.NameValue) (ct : string)
    (m : Header) :
  foldl (λ '(contentType, headersMap) h,
           (if String.eqb (ToLower (Positional.HAR.Name h)) "content-type"
            then Positional.HAR.Value h else contentType,
            append_at (Positional.HAR.Name h) (Positional.HAR.Value h)
              headersMap))
        (ct, m) hs
  = (foldl (λ contentType h,
              if String.eqb (ToLower (Positional.HAR.Name h)) "content-type"
              then Positional.HAR.Value h else contentType) ct hs,
     foldl (λ headersMap h,
              append_at (Positional.HAR.Name h) (Positional.HAR.Value h)
                headersMap) m hs).
Proof.
  revert ct m. induction hs as [|h hs IH]; intros ct m; [ reflexivity | ].
  cbn [foldl]. apply IH.
Qed.

(** X10: the response header map of a pair holds under each header name the
    raw values that the response headers give that name, all of them, in the
    order of the header list. *)
Theorem response_headers_kept (url_Parse : string → option URL)
    (fl : Positional.Flags) (e : Positional.HAR.Entry) (p : Pair) (name : string) :
  Positional.entry_pair url_Parse fl e = Some p →
  RHeaders (PResponse p) !! name
  = grouped (values_at name
               (header_pairs
                  (Positional.HAR.RespHeaders (Positional.HAR.Response e)))).
Proof.
  intros Hp.
  apply entry_pair_Some in Hp
    as (u & _ & _ & _ & _ & _ & _ & _ & _ & _ & _ & -> & _).
  unfold Positional.respHeaders. rewrite respHeaders_fold. cbn [snd].
  apply (foldl_append_at_empty _ Positional.HAR.Name Positional.HAR.Value).
  reflexivity.
Qed.

(** X11: when a response has several [Content-Type] headers (in any
    capitalisation), the content type that classifies it is the value of the
    last one. *)
Theorem content_type_last_wins (hs1 hs2 : list Positional.HAR.NameValue)
    (h : Positional.HAR.NameValue) :
  ToLower (Positional.HAR.Name h) = "content-type" →
  Forall (λ h', ToLower (Positional.HAR.Name h') ≠ "content-type") hs2 →
  (Positional.respHeaders (hs1 ++ h :: hs2)).1 = Positional.HAR.Value h.
Proof.
  intros Hh Hrest. unfold Positional.respHeaders.
  rewrite respHeaders_fold. cbn [fst]. rewrite foldl_app. cbn [foldl].
  rewrite Hh, String.eqb_refl.
  generalize (Positional.HAR.Value h) as ct.
  induction Hrest as [|h' hs2 Hh' _ IH]; intros ct; [ reflexivity | ].
  cbn [foldl].
  destruct (String.eqb_spec (ToLower (Positional.HAR.Name h')) "content-type");
    [ contradiction | apply IH ].
Qed.

Lemma content_type_last_wins_witness :
  (Positional.respHeaders
     [Positional.HAR.mkNameValue "Content-Type" "image/png";
      Positional.HAR.mkNameValue "content-type" "text/plain";
      Positional.HAR.mkNameValue "Server" "nginx"]).1
  = "text/plain".
Proof.
  apply (content_type_last_wins
           [Positional.HAR.mkNameValue "Content-Type" "image/png"]
           [Positional.HAR.mkNameValue "Server" "nginx"]
           (Positional.HAR.mkNameValue "content-type" "text/plain")).
  - reflexivity.
  - repeat constructor. discriminate.
Defined.

(** ** The optional keys of a request *)

Lemma values_at_head {V} (k : string) (v : V) (l : list (string * V)) :
  grouped (values_at k ((k, v) :: l)) ≠ None.
Proof.
  unfold values_at. rewrite filter_cons_True by reflexivity. discriminate.
Qed.

Lemma reqHeaders_empty (hs : list Positional.HAR.NameValue) :
  Positional.reqHeaders hs = ∅ ↔ hs = [].
Proof.
  split; [ | intros ->; reflexivity ].
  destruct hs as [|h hs]; [ reflexivity | ]. intros Hempty. exfalso.
  pose proof (reqHeaders_lookup (h :: hs) (Positional.HAR.Name h)) as H.
  rewrite Hempty, lookup_empty in H. unfold header_pairs in H.
  rewrite fmap_cons, <- (values_at_fmap exact) in H.
  rewrite fmap_cons in H. cbn [prod_map id] in H.
  symmetry in H. exact (values_at_head _ _ _ H).
Qed.

Lemma reqQuery_empty (u : URL) :
  Positional.reqQuery u = ∅ ↔ ParseQuery (RawQuery u) = [].
Proof.
  split.
  - destruct (ParseQuery (RawQuery u)) as [|[k v] l] eqn:Hq; [ reflexivity | ].
    intros Hempty. exfalso.
    pose proof (reqQuery_lookup u k) as H.
    rewrite Hempty, lookup_empty, Hq, <- (values_at_fmap exact) in H.
    rewrite fmap_cons in H. cbn [prod_map id] in H.
    symmetry in H. exact (values_at_head _ _ _ H).
  - intros Hq. apply map_eq. intros k.
    rewrite reqQuery_lookup, Hq, lookup_empty. reflexivity.
Qed.

(** X12: the JSON of a request built by [har-to-hoverfly.go] has a
    ["headers"] key exactly when the entry has a request header, and a
    ["query"] key exactly when the URL's query string yields a parameter. *)
Theorem optional_request_keys (url_Parse : string → option URL)
    (fl : Positional.Flags) (e : Positional.HAR.Entry) (p : Pair) :
  Positional.entry_pair url_Parse fl e = Some p →
  ∃ u, url_Parse (Positional.HAR.URL (Positional.HAR.Request e)) = Some u
    ∧ ("headers" ∈ request_json_keys (PRequest p)
       ↔ Positional.HAR.Headers (Positional.HAR.Request e) ≠ [])
    ∧ ("query" ∈ request_json_keys (PRequest p)
       ↔ ParseQuery (RawQuery u) ≠ []).
Proof.
  intros Hp.
  apply entry_pair_Some in Hp as (u & Hu & _ & _ & _ & _ & _ & HH & HQ & _).
  exists u. split; [ exact Hu | ].
  unfold request_json_keys. rewrite HH, HQ.
  rewrite <- reqHeaders_empty, <- (reqQuery_empty u).
  destruct (Body (PRequest p)) as [[|b bs]|];
    repeat case_decide;
    rewrite ?elem_of_app, ?elem_of_cons, ?elem_of_nil;
    (split;
     (split; intros Hk;
     [ first [ assumption
             | exfalso;
               repeat (destruct Hk as [Hk | Hk]; try discriminate Hk);
               exact Hk ]
     | first [ contradiction | intuition reflexivity ] ])).
Qed.

Lemma optional_request_keys_witness :
  ∃ p, Positional.entry_pair Parse Samples.no_flags Samples.bare_entry = Some p
       ∧ ("headers" ∉ request_json_keys (PRequest p))
       ∧ ("query" ∉ request_json_keys (PRequest p)).
Proof.
  eexists. split; [ vm_compute; reflexivity | ].
  destruct (optional_request_keys Parse Samples.no_flags Samples.bare_entry _
              eq_refl) as (u & Hu & HH & HQ).
  vm_compute in Hu. injection Hu as <-.
  split; [ intros H; apply HH in H | intros H; apply HQ in H ];
    apply H; reflexivity.
Defined.

(** ** Tokens of [--allowed-content-types] *)

Lemma Contains_empty (s : string) : Contains s "" = true.
Proof. destruct s; reflexivity. Qed.

Lemma Split_trailing_comma (s : string) :
  ∃ l, l ≠ [] ∧ Split "," (s +:+ ",") = l ++ [""].
Proof.
  induction s as [|c s (l & Hl & IH)].
  - exists [""]. split; [ discriminate | reflexivity ].
  - rewrite app_String. cbn [Split]. rewrite IH.
    destruct (Ascii.eqb c ",").
    + exists ("" :: l). split; [ discriminate | reflexivity ].
    + destruct l as [|p l]; [ contradiction | ].
      exists (String c p :: l). split; [ discriminate | reflexivity ].
Qed.

(** X13: an empty token makes every MIME type text-like, and
    [--allowed-content-types] has one when its value is empty or ends in a
    comma: [--ignore-non-text] then excludes nothing. *)
Theorem empty_token_matches_all (mimeType : string) :
  (∀ allowed, "" ∈ allowed → Named.isTextContent mimeType allowed = true)
  ∧ Named.isTextContent mimeType (Split "," "") = true
  ∧ (∀ s, Named.isTextContent mimeType (Split "," (s +:+ ",")) = true).
Proof.
  assert (∀ allowed, "" ∈ allowed →
            Named.isTextContent mimeType allowed = true) as H.
  { intros allowed Hin. unfold Named.isTextContent.
    apply existsb_exists. exists "". split.
    - apply list_elem_of_In, Hin.
    - apply Contains_empty. }
  split; [ exact H | ]. split.
  - apply H. apply list_elem_of_here.
  - intros s. apply H. destruct (Split_trailing_comma s) as (l & _ & ->).
    apply elem_of_app. right. apply list_elem_of_here.
Qed.

Lemma lower_byte_not_upper (c : ascii) : is_upper (lower_byte c) = false.
Proof. destruct c as [[] [] [] [] [] [] [] []]; reflexivity. Qed.

Lemma has_upper_ToLower (s : string) : has_upper (ToLower s) = false.
Proof.
  unfold has_upper. induction s as [|c s IH]; [ reflexivity | ].
  cbn [ToLower String.list_ascii_of_string existsb].
  rewrite lower_byte_not_upper. exact IH.
Qed.

Lemma has_upper_app (s t : string) :
  has_upper (s +:+ t) = has_upper s || has_upper t.
Proof.
  unfold has_upper. induction s as [|c s IH]; [ reflexivity | ].
  rewrite app_String. cbn [String.list_ascii_of_string existsb].
  rewrite IH. apply orb_assoc.
Qed.

(** X14: the MIME type is lower-cased before the search and the tokens are
    not, so a token with an upper-case letter matches no MIME type: with
    only such tokens every response is non-text. *)
Theorem upper_case_token_never_matches (mimeType : string)
    (allowed : list string) :
  Forall (λ tok, has_upper tok = true) allowed →
  Named.isTextContent mimeType allowed = false.
Proof.
  intros Hall. unfold Named.isTextContent.
  induction Hall as [|tok allowed Htok _ IH]; [ reflexivity | ].
  cbn [existsb]. rewrite IH, orb_false_r.
  destruct (Contains (ToLower mimeType) tok) eqn:Hc; [ | reflexivity ].
  apply Contains_occurs in Hc as (a & b & Hab).
  pose proof (has_upper_ToLower mimeType) as Hlow.
  rewrite Hab, !has_upper_app, Htok, orb_true_r in Hlow. discriminate.
Qed.

Lemma upper_case_token_never_matches_witness :
  Forall (λ tok, has_upper tok = true) (Split "," "JSON,Xml")
  ∧ Named.isTextContent "application/json" (Split "," "JSON,Xml") = false.
Proof.
  assert (Forall (λ tok, has_upper tok = true) (Split "," "JSON,Xml")) as H
    by (repeat constructor).
  split; [ exact H | ].
  exact (upper_case_token_never_matches "application/json" _ H).
Defined.

(** ** The summary table of the second program *)

Lemma table_set_lookup (host' path' method' host path method : string)
    (table : Named.Table) :
  table_lookup (Named.table_set host' path' method' table) host path method
  = if decide ((host', path', method') = (host, path, method))
    then Some true
    else table_lookup table host path method.
Proof.
  unfold table_lookup, Named.table_set. cbv zeta.
  destruct (decide (host' = host)) as [-> | Hh].
  2: { rewrite lookup_insert_ne by exact Hh.
       rewrite decide_False by congruence. reflexivity. }
  rewrite lookup_insert_eq. cbn [mbind option_bind].
  destruct (decide (path' = path)) as [-> | Hp].
  2: { rewrite lookup_insert_ne by exact Hp.
       rewrite decide_False by congruence.
       destruct (table !! host); [ reflexivity | ].
       cbn [default from_option id mbind option_bind]. rewrite lookup_empty. reflexivity. }
  rewrite lookup_insert_eq. cbn [mbind option_bind].
  destruct (decide (method' = method)) as [-> | Hm].
  - rewrite lookup_insert_eq, decide_True by reflexivity. reflexivity.
  - rewrite lookup_insert_ne by exact Hm.
    rewrite decide_False by congruence.
    destruct (table !! host) as [paths|]; cbn [default from_option id mbind option_bind].
    + destruct (paths !! path); cbn [default from_option id mbind option_bind];
        [ reflexivity | apply lookup_empty ].
    + rewrite lookup_empty. cbn [default from_option id mbind option_bind]. apply lookup_empty.
Qed.

Section SummaryTable.

Variable url_Parse : string → option URL.

(** X15: in summary mode, the table of the second program holds [true]
    under a host, path and method exactly when an entry that passes the
    tests of the loop has them, and holds nothing else: no [false] is ever
    stored. *)
Theorem summary_table (fl : Named.Flags) (es : list Named.HAR.Entry)
    (host path method : string) :
  Named.summarise fl = true →
  table_lookup (Named.run url_Parse fl es).2 host path method
  = if existsb (λ e, named_included fl e
                     && bool_decide (entry_triple url_Parse e
                                     = (host, path, method))) es
    then Some true else None.
Proof.
  intros Hs. unfold Named.run.
  enough (∀ st,
    table_lookup
      (foldl (Named.process_entry url_Parse fl
                (Split "," (Named.allowedTypes fl))) st es).2 host path method
    = if existsb (λ e, named_included fl e
                       && bool_decide (entry_triple url_Parse e
                                       = (host, path, method))) es
      then Some true else table_lookup st.2 host path method) as H.
  { rewrite H. destruct (existsb _ es); reflexivity. }
  induction es as [|e es IH]; intros [pairs table]; [ reflexivity | ].
  cbn [foldl existsb]. rewrite IH, process_entry_included, Hs.
  destruct (existsb _ es); [ rewrite orb_true_r; reflexivity | ].
  rewrite orb_false_r.
  destruct (named_included fl e); [ | reflexivity ].
  cbn [snd andb]. destruct (entry_triple url_Parse e) as [[h p] m].
  rewrite table_set_lookup.
  case_bool_decide;
    [ rewrite decide_True by assumption | rewrite decide_False by assumption ];
    reflexivity.
Qed.

(** X16: in summary mode, seeing an entry a second time leaves the table
    as it is: each host, path and method is recorded once. *)
Theorem summary_table_dedup (fl : Named.Flags) (es : list Named.HAR.Entry)
    (e : Named.HAR.Entry) :
  (Named.run url_Parse fl (es ++ [e; e])).2
  = (Named.run url_Parse fl (es ++ [e])).2.
Proof.
  unfold Named.run. rewrite !foldl_app. cbn [foldl].
  destruct (foldl _ _ es) as [pairs table].
  rewrite process_entry_included.
  destruct (named_included fl e) eqn:Hin;
    [ | rewrite process_entry_included, Hin; reflexivity ].
  destruct (Named.summarise fl) eqn:Hs;
    rewrite process_entry_included, Hin, Hs; [ | reflexivity ].
  cbn [snd]. destruct (entry_triple url_Parse e) as [[h p] m].
  unfold Named.table_set. cbv zeta.
  rewrite lookup_insert_eq. cbn [default from_option id].
  rewrite lookup_insert_eq. cbn [default from_option id].
  rewrite !insert_insert_eq. reflexivity.
Qed.

End SummaryTable.

Lemma summary_table_witness :
  Named.summarise
    (Named.mkFlags "in.har" "" 0 false Named.default_allowedTypes "" true)
  = true
  ∧ table_lookup
      (Named.run Parse
         (Named.mkFlags "in.har" "" 0 false Named.default_allowedTypes "" true)
         [Samples.named_plain; Samples.named_bad; Samples.named_plain]).2
      "api.example.com" "/api/products" "GET"
    = Some true
  ∧ table_lookup
      (Named.run Parse
         (Named.mkFlags "in.har" "" 0 false Named.default_allowedTypes "" true)
         [Samples.named_plain; Samples.named_bad; Samples.named_plain]).2
      "api.example.com" "/api/products" "POST"
    = None.
Proof.
  split; [ reflexivity | ].
  split;
    (etransitivity; [ apply (summary_table Parse); reflexivity | reflexivity ]).
Defined.

(** ** The summary of [har-to-hoverfly.go] *)

Lemma values_at_some {V} (k : string) (l : list (string * V)) :
  grouped (values_at k l) ≠ None → ∃ v, (k, v) ∈ l.
Proof.
  unfold values_at. intros H.
  destruct (filter (λ kv : string * V, kv.1 = k) l) as [|[k' v] l'] eqn:Hf;
    [ contradiction | ].
  assert ((k', v) ∈ filter (λ kv : string * V, kv.1 = k) l) as Hin
    by (rewrite Hf; left).
  apply list_elem_of_filter in Hin as [Hk Hin]. cbn in Hk. subst k'.
  exists v. exact Hin.
Qed.

Section Summary.

Variable url_Parse : string → option URL.

Lemma summary_entry_row (fl : Positional.Flags) (m : gmap string (list string))
    (e : Positional.HAR.Entry) :
  Positional.summary_entry url_Parse fl m e
  = Some (match summary_row url_Parse fl e with
          | Some (host, row) => append_at host row m
          | None => m
          end).
Proof.
  unfold Positional.summary_entry, summary_row.
  destruct (url_Parse _) as [u|]; [ | reflexivity ].
  cbn [mbind option_bind]. destruct (_ && _); [ reflexivity | ].
  destruct (truncate_total (Positional.HAR.Method (Positional.HAR.Request e))
              Positional.method_width) as [? ->]; [ vm_compute; auto | ].
  destruct (truncate_total (UPath u) Positional.path_width) as [? ->];
    [ vm_compute; auto | ].
  destruct (truncate_total (RawQuery u) Positional.query_width) as [? ->];
    [ vm_compute; auto | ].
  reflexivity.
Qed.

Lemma summary_loop_rows (fl : Positional.Flags) (es : list Positional.HAR.Entry)
    (m : gmap string (list string)) :
  loop (Positional.summary_entry url_Parse fl) m es
  = Some (foldl (λ m kv, append_at kv.1 kv.2 m) m
            (omap (summary_row url_Parse fl) es)).
Proof.
  revert m. induction es as [|e es IH]; intros m; [ reflexivity | ].
  cbn [loop omap list_omap]. rewrite summary_entry_row.
  cbn [mbind option_bind]. rewrite IH.
  destruct (summary_row url_Parse fl e) as [[host row]|]; reflexivity.
Qed.

Lemma summary_rows_lookup (fl : Positional.Flags)
    (es : list Positional.HAR.Entry) (host : string) :
  foldl (λ m kv, append_at kv.1 kv.2 m) ∅ (omap (summary_row url_Parse fl) es)
    !! host
  = grouped (values_at host (omap (summary_row url_Parse fl) es)).
Proof.
  rewrite (foldl_append_at_empty _ fst snd) by reflexivity.
  rewrite (list_fmap_ext _ id (omap (summary_row url_Parse fl) es))
    by (intros i [h r] _; reflexivity).
  rewrite list_fmap_id. reflexivity.
Qed.

(** X17: in summary mode, [har-to-hoverfly.go] completes and its map holds
    under each host the rows of the kept entries with that host, one row for
    each entry (repeated requests are repeated), in input order; a host
    without a kept entry has no section. *)
Theorem summary_groups (fl : Positional.Flags) (es : list Positional.HAR.Entry) :
  Positional.summarise fl = true →
  ∃ m, Positional.main url_Parse fl es = Some (Positional.Summary m)
       ∧ ∀ host, m !! host
                 = grouped (values_at host (omap (summary_row url_Parse fl) es)).
Proof.
  intros Hs. unfold Positional.main. rewrite Hs, summary_loop_rows.
  eexists. split; [ reflexivity | ]. intros host. apply summary_rows_lookup.
Qed.

(** X18: with a non-empty [--host], the summary has no section for any
    other host. *)
Theorem summary_host_filter (fl : Positional.Flags)
    (es : list Positional.HAR.Entry) (m : gmap string (list string))
    (host : string) :
  Positional.hostFilter fl ≠ "" →
  Positional.main url_Parse fl es = Some (Positional.Summary m) →
  is_Some (m !! host) → host = Positional.hostFilter fl.
Proof.
  intros Hf Hmain [rows Hrows]. unfold Positional.main in Hmain.
  destruct (Positional.summarise fl); [ | discriminate ].
  rewrite summary_loop_rows in Hmain. injection Hmain as <-.
  rewrite summary_rows_lookup in Hrows.
  destruct (values_at_some host (omap (summary_row url_Parse fl) es))
    as [row Hrow]; [ rewrite Hrows; discriminate | ].
  apply list_elem_of_omap in Hrow as (e & _ & He).
  unfold summary_row in He.
  destruct (url_Parse _) as [u|]; [ | discriminate ].
  cbn [mbind option_bind] in He.
  destruct (String.eqb_spec (Positional.hostFilter fl) "") as [? | _];
    [ contradiction | ].
  destruct (String.eqb_spec (Host u) (Positional.hostFilter fl)) as [Hh | _];
    [ | discriminate ].
  cbn [negb andb] in He.
  destruct (Positional.truncate _ Positional.method_width); [ | discriminate ].
  destruct (Positional.truncate _ Positional.path_width); [ | discriminate ].
  destruct (Positional.truncate _ Positional.query_width); [ | discriminate ].
  cbn in He. injection He as <- _. exact Hh.
Qed.

(** X19: the two modes of [har-to-hoverfly.go] keep the same entries: an
    entry has a summary row exactly when it has a pair in the document. *)
Theorem same_entries_in_both_modes (fl : Positional.Flags)
    (e : Positional.HAR.Entry) :
  is_Some (summary_row url_Parse fl e)
  ↔ is_Some (Positional.entry_pair url_Parse fl e).
Proof.
  unfold summary_row, Positional.entry_pair.
  destruct (url_Parse _) as [u|]; cbn [mbind option_bind];
    [ | split; intros [? [=]] ].
  destruct (_ && _); [ split; intros [? [=]] | ].
  destruct (Positional.respHeaders _).
  destruct (truncate_total (Positional.HAR.Method (Positional.HAR.Request e))
              Positional.method_width) as [? ->]; [ vm_compute; auto | ].
  destruct (truncate_total (UPath u) Positional.path_width) as [? ->];
    [ vm_compute; auto | ].
  destruct (truncate_total (RawQuery u) Positional.query_width) as [? ->];
    [ vm_compute; auto | ].
  cbn [mbind option_bind]. split; eauto.
Qed.

End Summary.

Lemma summary_groups_witness :
  ∃ m, Positional.main Parse (Positional.mkFlags "" (-1) false "" true)
         [Samples.plain_entry; Samples.bad_entry; Samples.bare_entry;
          Samples.plain_entry]
       = Some (Positional.Summary m)
       ∧ length <$> m !! "api.example.com" = Some 3%nat
       ∧ m !! "" = None.
Proof.
  destruct (summary_groups Parse (Positional.mkFlags "" (-1) false "" true)
              [Samples.plain_entry; Samples.bad_entry; Samples.bare_entry;
               Samples.plain_entry] eq_refl) as (m & Hm & Hg).
  exists m. split; [ exact Hm | ].
  split; rewrite Hg; reflexivity.
Defined.

Lemma summary_host_filter_witness :
  ∃ m, Positional.main Parse
         (Positional.mkFlags "" (-1) false "api.example.com" true)
         [Samples.plain_entry; Samples.bare_entry]
       = Some (Positional.Summary m)
       ∧ is_Some (m !! "api.example.com")
       ∧ "api.example.com"
         = Positional.hostFilter
             (Positional.mkFlags "" (-1) false "api.example.com" true).
Proof.
  eexists. split; [ vm_compute; reflexivity | ].
  split; [ vm_compute; eauto | ].
  eapply (summary_host_filter Parse
            (Positional.mkFlags "" (-1) false "api.example.com" true)
            [Samples.plain_entry; Samples.bare_entry] _ "api.example.com").
  - discriminate.
  - vm_compute. reflexivity.
  - vm_compute. eauto.
Defined.

(** ** The whole documents on the sample entries *)

Lemma named_document_witness :
  Named.summarise Samples.named_host = false
  ∧ ∃ p, Named.main Parse Samples.named_host
           [Samples.named_bad; Samples.named_plain]
         = Named.Document {| Pairs := [p]; Delays := []; SchemaVersion := "v5.3" |}
         ∧ Destination (PRequest p) = [exact "api.example.com"].
Proof.
  split; [ reflexivity | ].
  eexists. split.
  - etransitivity; [ apply (named_document Parse); reflexivity | ].
    vm_compute. reflexivity.
  - reflexivity.
Defined.

Lemma ignore_non_text_document_witness :
  let fl := Named.mkFlags "in.har" "" 0 true Named.default_allowedTypes "" false in
  Named.ignoreNonText fl = true
  ∧ ∃ p, (Named.run Parse fl [Samples.named_plain; Samples.named_bad]).1 = [p]
         ∧ ∃ mimeType,
             RHeaders (PResponse p) !! "Content-Type" = Some [mimeType]
             ∧ Named.isTextContent mimeType (Split "," (Named.allowedTypes fl))
               = true.
Proof.
  cbv zeta. split; [ reflexivity | ].
  eexists. split; [ vm_compute; reflexivity | ].
  apply (ignore_non_text_document Parse
           (Named.mkFlags "in.har" "" 0 true Named.default_allowedTypes "" false)
           [Samples.named_plain; Samples.named_bad]).
  - reflexivity.
  - vm_compute. apply list_elem_of_here.
Defined.

Lemma host_filter_document_witness :
  let fl := Positional.mkFlags "" (-1) false "api.example.com" false in
  ∃ sim p,
    Positional.main Parse fl [Samples.bad_entry; Samples.bare_entry]
    = Some (Positional.Document sim)
    ∧ p ∈ Pairs sim
    ∧ Destination (PRequest p) = [exact (Positional.hostFilter fl)].
Proof.
  cbv zeta. eexists _, _. split; [ vm_compute; reflexivity | ].
  split; [ apply list_elem_of_here | ].
  eapply (host_filter_document Parse
            (Positional.mkFlags "" (-1) false "api.example.com" false)
            [Samples.bad_entry; Samples.bare_entry]).
  - discriminate.
  - vm_compute. reflexivity.
  - apply list_elem_of_here.
Defined.

Lemma body_passes_through_witness :
  ∃ p, Positional.entry_pair Parse Samples.skip_only Samples.plain_entry = Some p
       ∧ RBody (PResponse p) = "ok".
Proof.
  eexists. split; [ vm_compute; reflexivity | ].
  apply (proj1 (body_passes_through Parse) Samples.skip_only Samples.plain_entry).
  - vm_compute. reflexivity.
  - left. vm_compute. reflexivity.
  - right. vm_compute. reflexivity.
Defined.

Lemma zero_limit_empties_witness :
  ∃ p, Positional.entry_pair Parse (Positional.mkFlags "" 0 false "" false)
         Samples.plain_entry = Some p
       ∧ RBody (PResponse p) = "".
Proof.
  eexists. split; [ vm_compute; reflexivity | ].
  apply (zero_limit_empties Parse (Positional.mkFlags "" 0 false "" false)
           Samples.plain_entry).
  - vm_compute. reflexivity.
  - reflexivity.
  - reflexivity.
Defined.

Lemma response_headers_kept_witness :
  ∃ p, Positional.entry_pair Parse Samples.no_flags
         (Samples.products
            [Positional.HAR.mkNameValue "Set-Cookie" "a=1";
             Positional.HAR.mkNameValue "Content-Type" "text/plain";
             Positional.HAR.mkNameValue "Set-Cookie" "b=2"])
       = Some p
       ∧ RHeaders (PResponse p) !! "Set-Cookie" = Some ["a=1"; "b=2"]
       ∧ RHeaders (PResponse p) !! "set-cookie" = None.
Proof.
  eexists. split; [ vm_compute; reflexivity | ].
  split;
    (etransitivity;
     [ apply (response_headers_kept Parse Samples.no_flags
                (Samples.products
                   [Positional.HAR.mkNameValue "Set-Cookie" "a=1";
                    Positional.HAR.mkNameValue "Content-Type" "text/plain";
                    Positional.HAR.mkNameValue "Set-Cookie" "b=2"]));
       vm_compute; reflexivity
     | reflexivity ]).
Defined.

(** ** What the second program leaves out of a request *)

(** X20: every pair of the second program's document matches on method,
    destination and path only: its request has no body, header or query
    matcher, whatever the entry's URL holds after the path. *)
Theorem named_request_keys (url_Parse : string → option URL) (fl : Named.Flags)
    (es : list Named.HAR.Entry) (p : Pair) :
  p ∈ (Named.run url_Parse fl es).1 →
  request_json_keys (PRequest p) = ["method"; "destination"; "path"]
  ∧ length (request_matchers (PRequest p)) = 3%nat.
Proof.
  intros Hp. apply run_pairs in Hp as (e & _ & ->).
  unfold request_json_keys, request_matchers, Named.convertEntryToPair.
  cbn [PRequest Method Destination Path Body Headers Query default].
  rewrite map_to_list_empty, !decide_True by reflexivity.
  split; reflexivity.
Qed.

Lemma named_request_keys_witness :
  ∃ p, p ∈ (Named.run Parse Samples.named_defaults [Samples.named_plain]).1
       ∧ Path (PRequest p) = [exact "/api/products"]
       ∧ request_json_keys (PRequest p) = ["method"; "destination"; "path"].
Proof.
  eexists. split; [ vm_compute; apply list_elem_of_here | ].
  split; [ reflexivity | ].
  apply (named_request_keys Parse Samples.named_defaults [Samples.named_plain]).
  vm_compute. apply list_elem_of_here.
Defined.

(** ** Entries whose URL does not parse, in both programs *)

Section UnparseableEntries.

Variable url_Parse : string → option URL.

(** C3 (as amended): in [har-to-hoverfly.go], an entry whose URL does not
    parse leaves the run as it is without the entry, document and summary
    alike, and the run completes; in the program with [parseURL], the parse
    failure is replaced by the empty URL and the entry goes on through the
    loop like any other: whenever the two tests of the loop let it through
    (no [--host] text or one the raw URL contains; no [--ignore-non-text] or
    a text-like MIME type), it adds a pair whose destination and path are
    empty, between the pairs of the entries before and after it, or in
    summary mode a table entry under the empty host and path. *)
Theorem unparseable_url :
  (∀ fl es1 e es2,
     url_Parse (Positional.HAR.URL (Positional.HAR.Request e)) = None →
     Positional.main url_Parse fl (es1 ++ e :: es2)
     = Positional.main url_Parse fl (es1 ++ es2)
     ∧ is_Some (Positional.main url_Parse fl (es1 ++ e :: es2)))
  ∧ (∀ fl es1 e es2,
       url_Parse (Named.HAR.URL (Named.HAR.Request e)) = None →
       Named.parseURL url_Parse (Named.HAR.URL (Named.HAR.Request e))
       = empty_URL
       ∧ (Named.restrictHost fl = ""
          ∨ Contains (Named.HAR.URL (Named.HAR.Request e))
              (Named.restrictHost fl) = true →
          Named.ignoreNonText fl = false
          ∨ Named.isTextContent (Named.HAR.MimeType (Named.HAR.Response e))
              (Split "," (Named.allowedTypes fl)) = true →
          (Named.summarise fl = false →
           ∃ p, (Named.run url_Parse fl (es1 ++ e :: es2)).1
                = (Named.run url_Parse fl es1).1
                  ++ p :: (Named.run url_Parse fl es2).1
                ∧ Destination (PRequest p) = [exact ""]
                ∧ Path (PRequest p) = [exact ""])
          ∧ (Named.summarise fl = true →
             (Named.run url_Parse fl (es1 ++ [e])).2
             = Named.table_set "" "" (Named.HAR.Method (Named.HAR.Request e))
                 (Named.run url_Parse fl es1).2))).
Proof.
  split.
  - intros fl es1 e es2 He. split; [ | apply main_total ].
    unfold Positional.main. destruct (Positional.summarise fl).
    + f_equal. rewrite !loop_app.
      destruct (loop _ ∅ es1) as [st|]; [ | reflexivity ].
      cbn [mbind option_bind loop].
      assert (Positional.summary_entry url_Parse fl st e = Some st) as ->
        by (unfold Positional.summary_entry; rewrite He; reflexivity).
      reflexivity.
    + rewrite !simulate_omap, !omap_app. cbn [omap list_omap].
      assert (Positional.entry_pair url_Parse fl e = None) as ->
        by (unfold Positional.entry_pair; rewrite He; reflexivity).
      reflexivity.
  - intros fl es1 e es2 He.
    assert (Named.parseURL url_Parse (Named.HAR.URL (Named.HAR.Request e))
            = empty_URL) as Hempty
      by (unfold Named.parseURL; rewrite He; reflexivity).
    split; [ exact Hempty | ].
    intros Hhost Htext.
    assert (named_included fl e = true) as Hin.
    { unfold named_included. apply andb_true_iff. split; apply orb_true_iff.
      - destruct Hhost as [Hh | Hh]; [ left; rewrite Hh; reflexivity | right; exact Hh ].
      - destruct Htext as [Ht | Ht]; [ left; rewrite Ht; reflexivity | right; exact Ht ]. }
    split; intros Hs.
    + exists (Named.convertEntryToPair url_Parse e (Named.sizeLimit fl)
                (Split "," (Named.allowedTypes fl))).
      split.
      * rewrite !run_pairs_filter, Hs, filter_app.
        rewrite filter_cons_True by exact Hin.
        rewrite fmap_app, fmap_cons. reflexivity.
      * unfold Named.convertEntryToPair. cbn [PRequest Destination Path].
        rewrite Hempty. split; reflexivity.
    + unfold Named.run. rewrite foldl_app. cbn [foldl].
      destruct (foldl _ _ es1) as [pairs table].
      rewrite process_entry_included, Hin, Hs. cbn [snd].
      unfold entry_triple. rewrite Hempty. reflexivity.
Qed.

End UnparseableEntries.

Lemma unparseable_url_witness :
  Parse (Positional.HAR.URL (Positional.HAR.Request Samples.bad_entry)) = None
  ∧ Positional.main Parse Samples.no_flags
      [Samples.plain_entry; Samples.bad_entry; Samples.bare_entry]
    = Positional.main Parse Samples.no_flags
        [Samples.plain_entry; Samples.bare_entry]
  ∧ is_Some (Positional.main Parse Samples.no_flags
               [Samples.plain_entry; Samples.bad_entry; Samples.bare_entry])
  ∧ Parse (Named.HAR.URL (Named.HAR.Request Samples.named_bad_escape)) = None
  ∧ Contains (Named.HAR.URL (Named.HAR.Request Samples.named_bad_escape))
      (Named.restrictHost Samples.named_host) = true
  ∧ ∃ p, (Named.run Parse Samples.named_host
            [Samples.named_plain; Samples.named_bad_escape;
             Samples.named_redirect]).1
         = (Named.run Parse Samples.named_host [Samples.named_plain]).1
           ++ p :: (Named.run Parse Samples.named_host
                      [Samples.named_redirect]).1
         ∧ Destination (PRequest p) = [exact ""]
         ∧ Path (PRequest p) = [exact ""].
Proof.
  split; [ reflexivity | ].
  destruct (proj1 (unparseable_url Parse) Samples.no_flags
              [Samples.plain_entry] Samples.bad_entry [Samples.bare_entry]
              eq_refl) as [Hsame Hdone].
  split; [ exact Hsame | ]. split; [ exact Hdone | ].
  split; [ reflexivity | ]. split; [ reflexivity | ].
  apply (proj2 (unparseable_url Parse) Samples.named_host
           [Samples.named_plain] Samples.named_bad_escape
           [Samples.named_redirect] eq_refl).
  - right. reflexivity.
  - left. reflexivity.
  - reflexivity.
Defined.

(** C3, the claim as stated fails: the program with [parseURL], run with
    its default flags on one entry whose URL does not parse, emits a
    document with one pair for that entry. *)
Lemma unparseable_url_counterexample :
  Parse (Named.HAR.URL (Named.HAR.Request Samples.named_bad)) = None
  ∧ ∃ p, Named.main Parse Samples.named_defaults [Samples.named_bad]
         = Named.Document {| Pairs := [p]; Delays := []; SchemaVersion := "v5.3" |}
         ∧ Destination (PRequest p) = [exact ""]
         ∧ Labels p = ["GET"].
Proof.
  split; [ reflexivity | ].
  eexists. split; [ vm_compute; reflexivity | ].
  split; reflexivity.
Qed.
